(** * custom-select.js: the jQuery [CustomSelect] plugin

    A shallow embedding of [src/custom-select.js].  The plugin keeps three
    views in step: the native [<select>] (its options, their [selected]
    marks and its current value), the rendered widget (a wrapper [<div>], a
    trigger [<button>] and a [<ul>] with one [<li><button>] per option) and
    two closure variables, [disabled] and [expanded].

    Modelling conventions.
    - A class attribute is a finite set of class tokens.  The tokens the
      plugin manages are named by the keys of its [defaults] table; the
      table maps the keys to pairwise distinct names ([defaults_inj]), and
      a token is identified with its key.
    - An [<option>] is what the plugin reads from it: [item.val()],
      [item.text()], whether [item.attr('selected')] is ['selected'], and
      whether it carries a [value] attribute (an attribute selector sees
      only that; [val()] falls back to the text without it).
    - jQuery is not part of the plugin.  What it does is written out where
      it is the same for every string: the conversion [.data()] applies to
      ["true"], ["false"] and ["null"], what [.val(value)] accepts, what
      [.attr('selected', ...)] does.  Where it depends on a grammar (the
      selector built from a value, the HTML built from a value and a text,
      the JSON-like strings [.data()] parses) it is a member of the class
      [Library], with a law that fixes it on plain strings only.
    - A jQuery collection of list items (or of the buttons inside them: each
      [<li>] holds exactly one button) is the list of their positions in
      the [<ul>], in document order.
    - Every function of the plugin is a computation in a small state monad
      that also logs the state after each write, so that the order of the
      writes inside one handler can be inspected.  [changeSelectItem] can be
      left by an exception; it and its callers give back whether they ran
      to their end. *)

From stdpp Require Import base decidable countable gmap list strings.
From Stdlib Require Import ZArith Lia Ascii.

Local Open Scope Z_scope.

(** ** Configuration *)

(** The keys of the [defaults] table. *)
Inductive cls : Set :=
  | replacedClass | wrapperClass | triggerClass | selectedClass
  | disabledClass | focusClass | optionsClass | optionClass | expandedClass.

Definition defaults (c : cls) : string :=
  match c with
  | replacedClass => "replaced"
  | wrapperClass => "custom-select"
  | triggerClass => "trigger"
  | selectedClass => "selected"
  | disabledClass => "disabled"
  | focusClass => "focus"
  | optionsClass => "options"
  | optionClass => "option"
  | expandedClass => "expanded"
  end.

#[global] Instance cls_eq_dec : EqDecision cls.
Proof. solve_decision. Defined.

Definition cls_code (c : cls) : nat :=
  match c with
  | replacedClass => 0 | wrapperClass => 1 | triggerClass => 2
  | selectedClass => 3 | disabledClass => 4 | focusClass => 5
  | optionsClass => 6 | optionClass => 7 | expandedClass => 8
  end%nat.

Definition cls_of_code (n : nat) : cls :=
  match n with
  | 0 => replacedClass | 1 => wrapperClass | 2 => triggerClass
  | 3 => selectedClass | 4 => disabledClass | 5 => focusClass
  | 6 => optionsClass | 7 => optionClass | _ => expandedClass
  end%nat.

#[global] Instance cls_countable : Countable cls.
Proof.
  apply (inj_countable' cls_code cls_of_code).
  intros c; destruct c; reflexivity.
Defined.

(** ** The DOM the plugin touches *)

(** A class attribute. *)
Abbreviation classes := (gset cls).

Definition addClass (c : cls) (cs : classes) : classes := cs ∪ {[c]}.
Definition removeClass (c : cls) (cs : classes) : classes := cs ∖ {[c]}.
Definition hasClass (c : cls) (cs : classes) : bool := bool_decide (c ∈ cs).

(** An [<option>] of the native control: [item.val()], [item.text()],
    whether [item.attr('selected')] is ['selected'], and whether the
    element has a [value] attribute (its content is then [item.val()]). *)
Record OptionEl := mkOption {
  o_value : string;
  o_text : string;
  o_selected : bool;
  o_has_value : bool
}.

(** The native [<select>]: the tokens of its class attribute, its
    [disabled] attribute, its children and what [.val()] reads ([None]
    when no option is current). *)
Record SelectEl := mkSelect {
  sel_classes : classes;
  sel_disabled : bool;
  sel_options : list OptionEl;
  sel_value : option string
}.

(** A [<li>] of the custom list with its single [<button>]: the class
    attribute of the [<li>], and the [data-value] and text of the button. *)
Record ListItem := mkItem {
  li_classes : classes;
  li_value : string;
  li_text : string
}.

(** The state of one widget instance: the closure variables of
    [CustomSelect] and the elements they point to.  [trigger] is the text
    of the trigger button, [wrapper] the class attribute of the wrapper,
    [list_items] the children of the [<ul>] (the nodes also held by
    [listOfOptions]), and [mounted] tells whether the wrapper, with trigger
    and list inside, has been inserted after the native control. *)
Record State := mkState {
  selectElement : SelectEl;
  disabled : bool;
  expanded : bool;
  trigger : string;
  wrapper : classes;
  list_items : list ListItem;
  mounted : bool
}.

#[global] Instance OptionEl_eq_dec : EqDecision OptionEl.
Proof. solve_decision. Defined.
#[global] Instance SelectEl_eq_dec : EqDecision SelectEl.
Proof. solve_decision. Defined.
#[global] Instance ListItem_eq_dec : EqDecision ListItem.
Proof. solve_decision. Defined.
#[global] Instance State_eq_dec : EqDecision State.
Proof. solve_decision. Defined.

(** Field updates. *)
Definition set_selectElement (f : SelectEl → SelectEl) (st : State) : State :=
  mkState (f (selectElement st)) (disabled st) (expanded st) (trigger st)
          (wrapper st) (list_items st) (mounted st).
Definition set_disabled (b : bool) (st : State) : State :=
  mkState (selectElement st) b (expanded st) (trigger st)
          (wrapper st) (list_items st) (mounted st).
Definition set_expanded (b : bool) (st : State) : State :=
  mkState (selectElement st) (disabled st) b (trigger st)
          (wrapper st) (list_items st) (mounted st).
Definition set_trigger (s : string) (st : State) : State :=
  mkState (selectElement st) (disabled st) (expanded st) s
          (wrapper st) (list_items st) (mounted st).
Definition set_wrapper (f : classes → classes) (st : State) : State :=
  mkState (selectElement st) (disabled st) (expanded st) (trigger st)
          (f (wrapper st)) (list_items st) (mounted st).
Definition set_list_items (f : list ListItem → list ListItem) (st : State) : State :=
  mkState (selectElement st) (disabled st) (expanded st) (trigger st)
          (wrapper st) (f (list_items st)) (mounted st).
Definition set_mounted (b : bool) (st : State) : State :=
  mkState (selectElement st) (disabled st) (expanded st) (trigger st)
          (wrapper st) (list_items st) b.

(** ** jQuery collections over the custom list *)

Definition jq := list nat.

Fixpoint positions {A} (p : A → bool) (l : list A) (i : nat) : jq :=
  match l with
  | [] => []
  | x :: l' => (if p x then [i] else []) ++ positions p l' (S i)
  end.

(** [list.find('li')]: every item. *)
Definition find_li (st : State) : jq := seq 0 (length (list_items st)).

(** [list.find(selectedEl)]: the items whose class attribute holds the
    selected class (a button only ever carries the option class). *)
Definition find_selectedEl (st : State) : jq :=
  positions (λ li, hasClass selectedClass (li_classes li)) (list_items st) 0.

(** [list.find(optionEl)]: the option buttons, one per item. *)
Definition find_optionEl (st : State) : jq := seq 0 (length (list_items st)).

(** [.parent()] of a collection of buttons and [.find(optionEl)] of a
    collection of items: the items around the buttons, the buttons inside
    the items. *)
Definition jq_parent (s : jq) : jq := s.
Definition jq_find_optionEl (s : jq) : jq := s.

(** [.index()]: the position of the first element among its siblings, -1
    for an empty collection. *)
Definition jq_index (s : jq) : Z :=
  match s with
  | [] => -1
  | i :: _ => Z.of_nat i
  end.

(** [.eq(k)]: the element at position [k], counted from the end when [k]
    is negative; empty when out of range. *)
Definition jq_eq (s : jq) (k : Z) : jq :=
  let len := Z.of_nat (length s) in
  let j := if k <? 0 then k + len else k in
  if (0 <=? j) && (j <? len)
  then match s !! Z.to_nat j with Some i => [i] | None => [] end
  else [].

(** [.prev('li')] and [.next('li')]: the sibling just before, just after. *)
Definition jq_prev (s : jq) : jq :=
  flat_map (λ i, match i with O => [] | S j => [j] end) s.
Definition jq_next (st : State) (s : jq) : jq :=
  flat_map (λ i, if bool_decide (S i < length (list_items st))%nat
                 then [S i] else []) s.

(** [.text()]: the texts of the elements, concatenated. *)
Definition jq_text (s : jq) (st : State) : string :=
  foldr (λ i acc, match list_items st !! i with
                  | Some li => li_text li +:+ acc
                  | None => acc
                  end) EmptyString s.

(** [.addClass] / [.removeClass] on a collection of items. *)
Definition li_update (f : classes → classes) (s : jq)
    (items : list ListItem) : list ListItem :=
  imap (λ i li, if bool_decide (i ∈ s)
                then mkItem (f (li_classes li)) (li_value li) (li_text li)
                else li) items.

(** ** Plain strings *)

Definition ascii_in (lo hi : nat) (a : ascii) : bool :=
  (lo <=? nat_of_ascii a)%nat && (nat_of_ascii a <=? hi)%nat.

(** A letter or an underscore. *)
Definition letter (a : ascii) : bool :=
  ascii_in 65 90 a || ascii_in 97 122 a || (nat_of_ascii a =? 95)%nat.

(** A letter, an underscore, a digit or a hyphen. *)
Definition word_char (a : ascii) : bool :=
  letter a || ascii_in 48 57 a || (nat_of_ascii a =? 45)%nat.

(** Not one of the characters HTML gives a meaning to inside a quoted
    attribute or in text: NUL, CR, the two quotes, [&], [<], [>]. *)
Definition html_char (a : ascii) : bool :=
  negb (bool_decide (nat_of_ascii a ∈ [0; 13; 34; 38; 39; 60; 62]%nat)).

Fixpoint all_chars (p : ascii → bool) (s : string) : bool :=
  match s with
  | EmptyString => true
  | String a s' => p a && all_chars p s'
  end.

(** A string that is an identifier for every selector engine: it can be
    written unquoted after [value=]. *)
Definition identifier (s : string) : bool :=
  match s with
  | EmptyString => false
  | String a s' => letter a && all_chars word_char s'
  end.

(** A string HTML reads back as it was written. *)
Definition html_plain (s : string) : bool := all_chars html_char s.

(** The three attribute texts [.data()] turns into something that is not
    a string. *)
Definition converted (s : string) : bool :=
  bool_decide (s = "true") || bool_decide (s = "false")
  || bool_decide (s = "null").

(** A value that goes through [.data()] and the selector unchanged. *)
Definition plain_token (s : string) : bool :=
  identifier s && negb (converted s).

(** ** JavaScript values *)

(** What [.data('value')] can give.  [js_text s] is the string [s], or the
    number that prints as [s]: concatenation and [.val()] turn both into
    [s].  [js_json shown accepted] is a parsed object or array: [shown] is
    what concatenation makes of it and [accepted] the strings [.val()]
    compares the options with. *)
Inductive jsval :=
  | js_undefined
  | js_null
  | js_bool (b : bool)
  | js_text (s : string)
  | js_json (shown : string) (accepted : list string).

(** ['...' + value]. *)
Definition js_to_string (value : jsval) : string :=
  match value with
  | js_undefined => "undefined"
  | js_null => "null"
  | js_bool true => "true"
  | js_bool false => "false"
  | js_text s => s
  | js_json shown _ => shown
  end.

(** The strings [.val(value)] looks for among the options: [null] and
    [undefined] count as the empty string, a boolean equals no string. *)
Definition val_accepts (value : jsval) : list string :=
  match value with
  | js_undefined | js_null => [EmptyString]
  | js_bool _ => []
  | js_text s => [s]
  | js_json _ accepted => accepted
  end.

(** ** The library *)

(** The positions of the options whose [value] attribute is [s]. *)
Definition value_positions (s : string) (opts : list OptionEl) : list nat :=
  positions (λ o, o_has_value o && bool_decide (o_value o = s)) opts 0.

(** The parts of jQuery that follow a grammar.
    - [parse_json s]: for an attribute text that [.data()] takes for JSON
      and parses, what concatenation makes of the result and the strings
      [.val()] accepts for it.
    - [find_value s opts]: [selectElement.find('[value=' + s + ']')] over
      the options [opts]: the positions of the options found, or [None]
      when the selector is rejected with a syntax error (an exception).
    - [parse_li v t]: the [data-value] and the text of the button in the
      [<li>] that [$('<li><button class=... data-value="' + v + '"
      tabindex="-1">' + t + '</button></li>')[0]] is.  The [<li>] tag
      itself is written out before [v] and [t]: it has no class.
    The laws fix them where no grammar is involved: an identifier is not
    JSON, finds the options whose [value] attribute it is, and plain
    strings are read back from HTML as they were written. *)
Class Library := {
  parse_json : string → option (string * list string);
  find_value : string → list OptionEl → option (list nat);
  parse_li : string → string → string * string;
  parse_json_identifier s : identifier s = true → parse_json s = None;
  find_value_identifier s opts :
    identifier s = true →
    find_value s opts = Some (value_positions s opts);
  parse_li_plain v t :
    html_plain v = true → html_plain t = true →
    parse_li v t = (v, t)
}.

(** ** Computations *)

(** The outcome of running a piece of the plugin: its result, the state it
    leaves, and the states after each of its writes, in order. *)
Record Run (A : Type) := mkRun {
  result : A;
  final : State;
  writes : list State
}.
Arguments mkRun {A} _ _ _.
Arguments result {A} _.
Arguments final {A} _.
Arguments writes {A} _.

Definition M (A : Type) : Type := State → Run A.

#[global] Instance M_ret : MRet M := λ A a st, mkRun a st [].
#[global] Instance M_bind : MBind M := λ A B f m st,
  let r := m st in
  let r' := f (result r) (final r) in
  mkRun (result r') (final r') (writes r ++ writes r').

Definition reads {A} (f : State → A) : M A := λ st, mkRun (f st) st [].
Definition write (f : State → State) : M unit := λ st, mkRun () (f st) [f st].

Fixpoint each {A} (l : list A) (body : A → M unit) : M unit :=
  match l with
  | [] => mret ()
  | x :: l' => body x;; each l' body
  end.

(** ** Events *)

Inductive etype := click | focus | blur | keyup | disable.

(** [e.target] of a click inside the list: the button of the item at some
    position, or anything else (an [<li>], the [<ul>] itself). *)
Inductive Target := button (i : nat) | other_element.

Record Event := mkEvent {
  e_type : etype;
  keyCode : Z;
  target : Target
}.

(** ** The plugin *)

Section plugin.
Context `{lib : !Library}.

(** The conversion [.data()] applies to an attribute text. *)
Definition data_convert (s : string) : jsval :=
  if bool_decide (s = "true") then js_bool true
  else if bool_decide (s = "false") then js_bool false
  else if bool_decide (s = "null") then js_null
  else match parse_json s with
       | Some (shown, accepted) => js_json shown accepted
       | None => js_text s
       end.

(** [.data('value')]: the converted [data-value] of the first element,
    [undefined] for an empty collection. *)
Definition jq_data_value (s : jq) (st : State) : jsval :=
  match s with
  | [] => js_undefined
  | i :: _ => match list_items st !! i with
              | Some li => data_convert (li_value li)
              | None => js_undefined
              end
  end.

(** *** The native control *)

(** [selectElement.find('option').attr('selected', false)]: every mark is
    removed and every option deselected; a control left without a
    selected option shows its first one. *)
Definition clear_selected (sel : SelectEl) : SelectEl :=
  mkSelect (sel_classes sel) (sel_disabled sel)
           ((λ o, mkOption (o_value o) (o_text o) false (o_has_value o))
              <$> sel_options sel)
           (o_value <$> head (sel_options sel)).

(** [.attr('selected', true)] on the options at the positions [found]:
    they get the mark.  What the control reads in between is not followed:
    [.val(value)] comes next and settles it. *)
Definition mark_selected (found : list nat) (sel : SelectEl) : SelectEl :=
  mkSelect (sel_classes sel) (sel_disabled sel)
           (imap (λ i o, if bool_decide (i ∈ found)
                         then mkOption (o_value o) (o_text o) true
                                       (o_has_value o)
                         else o) (sel_options sel))
           (sel_value sel).

(** [selectElement.val(value)]: the first option whose [val()] is one of
    the accepted strings becomes the current one; when there is none the
    control is left without a current value. *)
Definition val (value : jsval) (sel : SelectEl) : SelectEl :=
  mkSelect (sel_classes sel) (sel_disabled sel) (sel_options sel)
           (o_value <$>
              List.find (λ o, bool_decide (o_value o ∈ val_accepts value))
                        (sel_options sel)).

Definition select_addClass (c : cls) (sel : SelectEl) : SelectEl :=
  mkSelect (addClass c (sel_classes sel)) (sel_disabled sel)
           (sel_options sel) (sel_value sel).

(** *** The functions of [CustomSelect] *)

(** A handler gives back whether the default action of the event is
    suppressed: by [e.preventDefault()], or by [return false].
    [changeSelectItem] and the functions that end with it give back
    whether they ran to their end ([true]) or were left by the exception
    of a rejected selector ([false]). *)

Definition updateTriggerText (value : string) : M unit :=
  write (set_trigger value).

Definition openCustomSelect : M unit :=
  write (set_wrapper (addClass expandedClass));;
  write (set_expanded true).

Definition closeCustomSelect : M unit :=
  write (set_wrapper (removeClass expandedClass));;
  write (set_expanded false).

Definition toggleCustomSelect : M bool :=
  d ← reads disabled;
  if d : bool then mret true (* return false *)
  else
    x ← reads expanded;
    (if x : bool then closeCustomSelect else openCustomSelect);;
    mret false.

Definition changeSelectItem (selection : jq) : M bool :=
  value ← reads (jq_data_value selection);
  write (set_selectElement clear_selected);;
  found ← reads (λ st, find_value (js_to_string value)
                         (sel_options (selectElement st)));
  match found with
  | None => mret false (* the exception leaves the function here *)
  | Some found =>
      write (set_selectElement (mark_selected found));;
      write (set_selectElement (val value));;
      mret true
  end.

Definition changeSelectElement (selection : jq) : M bool :=
  let currentSelection := selection in
  all ← reads (λ st, jq_parent (find_optionEl st));
  write (set_list_items (li_update (removeClass selectedClass) all));;
  write (set_list_items
           (li_update (addClass selectedClass) (jq_parent currentSelection)));;
  txt ← reads (jq_text currentSelection);
  updateTriggerText txt;;
  changeSelectItem selection.

Definition handleCustomListClick (e : Event) : M bool :=
  d ← reads disabled;
  if d : bool then mret true (* return false *)
  else
    ran ← match target e with
          | button i =>
              toggleCustomSelect;;
              changeSelectElement [i]
          | other_element => mret true
          end;
    if ran : bool then mret true (* e.preventDefault() *)
    else mret false (* the exception leaves the handler before it *).

Definition handleKeyboardInput (e : Event) : M bool :=
  selection ← reads (λ st, jq_index (find_selectedEl st));
  nextSelection ← reads (λ st,
    if (keyCode e =? 38) || (keyCode e =? 37)
    then Some (jq_prev (jq_eq (find_li st) selection))
    else if (keyCode e =? 40) || (keyCode e =? 39)
    then Some (jq_next st (jq_eq (find_li st) selection))
    else None);
  match nextSelection with
  | Some ns =>
      if bool_decide (0 < length ns)%nat
      then
        write (set_list_items (li_update (addClass selectedClass) ns));;
        txt ← reads (jq_text ns);
        updateTriggerText txt;;
        old ← reads (λ st, jq_eq (find_li st) selection);
        write (set_list_items (li_update (removeClass selectedClass) old));;
        sel ← reads (λ st, jq_find_optionEl (find_selectedEl st));
        changeSelectItem sel
      else mret true
  | None => mret true
  end.

Definition handleKeyboardSelect (e : Event) : M bool :=
  d ← reads disabled;
  if d : bool then mret true (* return false *)
  else
    ran ← match e_type e with
          | keyup => handleKeyboardInput e
          | blur => write (set_wrapper (removeClass focusClass));; mret true
          | focus => write (set_wrapper (addClass focusClass));; mret true
          | disable => write (set_disabled true);; mret true
          | _ => mret true
          end;
    if ran : bool then mret true (* e.preventDefault() *)
    else mret false (* the exception leaves the handler before it *).

(** The body of the [$.each] over [selectOptions]. *)
Definition createListItem (item : OptionEl) : M unit :=
  let listItem := mkItem ∅ (parse_li (o_value item) (o_text item)).1
                         (parse_li (o_value item) (o_text item)).2 in
  listItem ←
    (if o_selected item
     then
       updateTriggerText (o_text item);;
       mret (mkItem (addClass selectedClass (li_classes listItem))
                    (li_value listItem) (li_text listItem))
     else mret listItem);
  (* listOfOptions.push(listItem[0]); list.append(listOfOptions): the
     nodes already in the list are moved behind themselves, in order, so
     its children are the array *)
  write (set_list_items (λ l, l ++ [listItem]));;
  (* trigger and list go into the wrapper, the wrapper after the select *)
  write (set_mounted true).

Definition createCustomSelect : M unit :=
  d ← reads disabled;
  (if d : bool then write (set_wrapper (addClass disabledClass))
   else mret ());;
  selectOptions ← reads (λ st, sel_options (selectElement st));
  each selectOptions createListItem.

(** [init]; its last step, [bindEventHandler()], registers the handlers
    and writes nothing: see [bindEventHandler] below. *)
Definition init : M unit :=
  write (set_selectElement (select_addClass replacedClass));;
  createCustomSelect.

(** [new CustomSelect(element, opts)]: the closure variables as declared,
    then [init()]. *)
Definition CustomSelect (element : SelectEl) : State :=
  final (init (mkState element (sel_disabled element) false EmptyString
                       {[wrapperClass]} [] false)).

(** [bindEventHandler]: which handler an event of a given type runs when
    it reaches one of the four elements the plugin listens on.  Without a
    bound handler nothing runs and the default action goes ahead. *)
Inductive Source := on_trigger | on_list | on_selectElement | on_wrapper.

Definition bindEventHandler (src : Source) (e : Event) : M bool :=
  match src, e_type e with
  | on_trigger, click => toggleCustomSelect
  | on_list, click => handleCustomListClick e
  | (on_selectElement | on_wrapper), (focus | blur | keyup | disable) =>
      handleKeyboardSelect e
  | _, _ => mret false
  end.

(** A run of the widget: events delivered one at a time, each handled to
    completion. *)
Definition deliver (st : State) (ev : Source * Event) : State :=
  final (bindEventHandler ev.1 ev.2 st).

Definition run (evs : list (Source * Event)) (st : State) : State :=
  foldl deliver st evs.

(** ** What the specification calls things *)

(** [select(i)]: a pointer activation of the button of item [i]. *)
Definition select (i : nat) : M bool :=
  handleCustomListClick (mkEvent click 0 (button i)).

(** [selectRelative(direction)]: one of the four arrow keys released on
    the control. *)
Inductive Direction := Previous | Next.
Inductive Key := key_up | key_left | key_down | key_right.

Definition key_code (k : Key) : Z :=
  match k with
  | key_left => 37 | key_up => 38 | key_right => 39 | key_down => 40
  end.

Definition key_direction (k : Key) : Direction :=
  match k with
  | key_up | key_left => Previous
  | key_down | key_right => Next
  end.

Definition selectRelative (k : Key) : M bool :=
  handleKeyboardSelect (mkEvent keyup (key_code k) other_element).

(** [WidgetState.selectedIndex]. *)
Definition selectedIndex (st : State) : Z := jq_index (find_selectedEl st).

(** [WidgetState.focused]. *)
Definition focused (st : State) : bool := hasClass focusClass (wrapper st).

(** The value the native control reads. *)
Definition native_value (st : State) : option string :=
  sel_value (selectElement st).

(** What construction turns one [<option>] into. *)
Definition item_of (o : OptionEl) : ListItem :=
  mkItem (if o_selected o then addClass selectedClass ∅ else ∅)
         (parse_li (o_value o) (o_text o)).1
         (parse_li (o_value o) (o_text o)).2.

(** The label construction leaves on the trigger: the text of the last
    option marked selected, nothing when none is. *)
Definition initial_label (opts : list OptionEl) : string :=
  default EmptyString (o_text <$> last (List.filter o_selected opts)).

(** What [changeSelectItem] does to the native control for a value. *)
Definition commit (value : jsval) (sel : SelectEl) : SelectEl :=
  match find_value (js_to_string value) (sel_options (clear_selected sel)) with
  | None => clear_selected sel
  | Some found => val value (mark_selected found (clear_selected sel))
  end.

(** Whether [changeSelectItem] runs to its end for a value: whether the
    selector built from it is taken. *)
Definition commit_runs (value : jsval) (sel : SelectEl) : bool :=
  match find_value (js_to_string value) (sel_options (clear_selected sel)) with
  | None => false
  | Some _ => true
  end.

(** A widget after some events: built from a native control, then run. *)
Definition widget (element : SelectEl) (evs : list (Source * Event)) : State :=
  run evs (CustomSelect element).

(** The expansion flag and the expansion class of the wrapper agree. *)
Definition expansion_in_step (st : State) : Prop :=
  expanded st = true ↔ expandedClass ∈ wrapper st.

(** The three views a selection step writes to: the expansion state (flag
    and wrapper class), the rendered selection (items and trigger label),
    and the native control ([selectElement]). *)
Definition expansion_of (st : State) : bool * classes :=
  (expanded st, wrapper st).
Definition rendering_of (st : State) : list ListItem * string :=
  (list_items st, trigger st).

(** The candidate [handleKeyboardInput] computes before it selects
    anything: its [nextSelection], [None] for [null]. *)
Definition nextSelection_of (e : Event) (st : State) : option jq :=
  if (keyCode e =? 38) || (keyCode e =? 37)
  then Some (jq_prev (jq_eq (find_li st) (selectedIndex st)))
  else if (keyCode e =? 40) || (keyCode e =? 39)
  then Some (jq_next st (jq_eq (find_li st) (selectedIndex st)))
  else None.

(** What [handleKeyboardInput] leaves when the candidate is [ns]. *)
Definition moved_to (ns : jq) (st : State) : State :=
  let st1 := set_list_items (li_update (addClass selectedClass) ns) st in
  let st2 := set_trigger (jq_text ns st1) st1 in
  let st3 := set_list_items
               (li_update (removeClass selectedClass)
                  (jq_eq (find_li st2) (selectedIndex st))) st2 in
  set_selectElement
    (commit (jq_data_value (jq_find_optionEl (find_selectedEl st3)) st3)) st3.

(** The three views agree: one item is selected, the trigger shows its
    label and the native control reads its value. *)
Definition in_agreement (st : State) : Prop :=
  ∃ k li, find_selectedEl st = [k] ∧ list_items st !! k = Some li ∧
          trigger st = li_text li ∧ native_value st = Some (li_value li).

(** A click inside a list of [n] items lands on one of its [n] buttons or
    beside them. *)
Definition event_in_range (n : nat) (ev : Source * Event) : bool :=
  match ev.1, e_type ev.2, target ev.2 with
  | on_list, click, button i => bool_decide (i < n)%nat
  | _, _, _ => true
  end.

(** Every item of the list carries a plain token that is the [val()] of
    some option: a value the commit takes to the native control as it is. *)
Definition committable (st : State) : bool :=
  forallb (λ v, plain_token v
                && bool_decide (v ∈ o_value <$> sel_options (selectElement st)))
          (li_value <$> list_items st).

(** An option whose value and text HTML reads back as written, the value
    being a plain token. *)
Definition plain_option (o : OptionEl) : bool :=
  plain_token (o_value o) && html_plain (o_text o).

(** What no event changes: the values and labels of the items and of the
    options, and the [disabled] attribute and class of the native control. *)
Definition fixed_part (st : State) :
    list string * list string * list string * list string * bool * classes :=
  (li_value <$> list_items st, li_text <$> list_items st,
   o_value <$> sel_options (selectElement st),
   o_text <$> sel_options (selectElement st),
   sel_disabled (selectElement st), sel_classes (selectElement st)).

(** The item next to [k] in a direction, if the direction has one on that
    side ([Previous] of the first item has none). *)
Definition neighbour (d : Direction) (k : nat) : option nat :=
  match d, k with
  | Previous, O => None
  | Previous, S k' => Some k'
  | Next, _ => Some (S k)
  end.

Definition opposite (d : Direction) : Direction :=
  match d with Previous => Next | Next => Previous end.

End plugin.

(** ** A library for running examples *)

(** On plain strings every library does the same.  This one rejects every
    selector that is not an identifier (as selector engines reject [1.5]
    and the empty string), parses no JSON and reads every string back from
    HTML as written: it serves to run the examples below. *)
#[global] Instance plain_library : Library := {|
  parse_json := λ _, None;
  find_value := λ s opts,
    if identifier s then Some (value_positions s opts) else None;
  parse_li := λ v t, (v, t);
  parse_json_identifier := λ _ _, eq_refl;
  find_value_identifier := λ s opts H,
    @eq_ind_r bool true
      (λ b : bool, (if b then Some (value_positions s opts) else None)
                   = Some (value_positions s opts))
      eq_refl (identifier s) H;
  parse_li_plain := λ _ _ _ _, eq_refl
|}.

(** A native control with three options, the second one selected. *)
Definition fruit : SelectEl :=
  mkSelect ∅ false
    [mkOption "a" "Apple" false true; mkOption "b" "Banana" true true;
     mkOption "c" "Cherry" false true] (Some "b"%string).

(** The same control with its [disabled] attribute set. *)
Definition fruit_disabled : SelectEl :=
  mkSelect ∅ true
    [mkOption "a" "Apple" false true; mkOption "b" "Banana" true true;
     mkOption "c" "Cherry" false true] (Some "b"%string).

(** The widget over [fruit] as built, and after one click on its trigger. *)
Definition fruit_closed : State := widget fruit [].
Definition fruit_open : State :=
  widget fruit [(on_trigger, mkEvent click 0 other_element)].

(** The widget after a key-up of the up arrow (Apple selected) and of the
    down arrow (Cherry selected). *)
Definition fruit_first : State :=
  widget fruit [(on_wrapper, mkEvent keyup 38 other_element)].
Definition fruit_last : State :=
  widget fruit [(on_wrapper, mkEvent keyup 40 other_element)].

(** Native controls with no option marked selected, and with two.  A
    control shows its first option when none is marked, and its last
    marked one when several are. *)
Definition fruit_unmarked : SelectEl :=
  mkSelect ∅ false
    [mkOption "a" "Apple" false true; mkOption "b" "Banana" false true;
     mkOption "c" "Cherry" false true] (Some "a"%string).
Definition fruit_two_marked : SelectEl :=
  mkSelect ∅ false
    [mkOption "a" "Apple" true true; mkOption "b" "Banana" false true;
     mkOption "c" "Cherry" true true] (Some "c"%string).

(** A native control without options. *)
Definition no_fruit : SelectEl := mkSelect ∅ false [] None.

(** The control of the usage note at the head of the source: two options
    without [value] attributes, the first one selected. *)
Definition foo_bar : SelectEl :=
  mkSelect ∅ false
    [mkOption "Foo" "Foo" true false; mkOption "Bar" "Bar" false false]
    (Some "Foo"%string).

(** A control whose values are the texts [.data()] converts. *)
Definition yes_no : SelectEl :=
  mkSelect ∅ false
    [mkOption "true" "Yes" true true; mkOption "false" "No" false true]
    (Some "true"%string).



(** A control whose values are decimals: no identifiers, so a selector
    engine rejects them when they are written without quotes. *)
Definition decimals : SelectEl :=
  mkSelect ∅ false
    [mkOption "1.0" "One" true true; mkOption "1.5" "One and a half" false true]
    (Some "1.0"%string).
(** * Properties *)

(** ** Running computations *)

Lemma final_bind {A B} (m : M A) (f : A → M B) st :
  final ((m ≫= f) st) = final (f (result (m st)) (final (m st))).
Proof. reflexivity. Qed.

Lemma result_bind {A B} (m : M A) (f : A → M B) st :
  result ((m ≫= f) st) = result (f (result (m st)) (final (m st))).
Proof. reflexivity. Qed.

Lemma writes_bind {A B} (m : M A) (f : A → M B) st :
  writes ((m ≫= f) st) =
    writes (m st) ++ writes (f (result (m st)) (final (m st))).
Proof. reflexivity. Qed.

(** Step into the first bind of a computation and read off its guard. *)
Ltac enter_bind :=
  rewrite ?final_bind, ?result_bind, ?writes_bind;
  cbn [reads result final writes].

(** ** Class attributes *)

(** The default names are pairwise distinct. *)
Lemma defaults_inj c d : defaults c = defaults d → c = d.
Proof. destruct c, d; intros H; try reflexivity; discriminate H. Qed.

Section class_attribute.
Context (c d : cls) (cs : classes).

Lemma elem_of_addClass : c ∈ addClass d cs ↔ c ∈ cs ∨ c = d.
Proof. unfold addClass. rewrite elem_of_union, elem_of_singleton. tauto. Qed.

Lemma elem_of_removeClass : c ∈ removeClass d cs ↔ c ∈ cs ∧ c ≠ d.
Proof.
  unfold removeClass. rewrite elem_of_difference, elem_of_singleton. tauto.
Qed.

Lemma hasClass_addClass :
  hasClass c (addClass d cs) = bool_decide (c = d) || hasClass c cs.
Proof.
  unfold hasClass. apply eq_true_iff_eq.
  rewrite orb_true_iff, !bool_decide_eq_true, elem_of_addClass. tauto.
Qed.

Lemma hasClass_removeClass :
  hasClass c (removeClass d cs) =
    negb (bool_decide (c = d)) && hasClass c cs.
Proof.
  unfold hasClass. apply eq_true_iff_eq.
  rewrite andb_true_iff, negb_true_iff, bool_decide_eq_false,
    !bool_decide_eq_true, elem_of_removeClass. tauto.
Qed.
End class_attribute.

Section properties.
Context `{lib : !Library}.

(** ** What each function leaves behind *)

Lemma toggleCustomSelect_final st :
  final (toggleCustomSelect st) =
    if disabled st then st
    else if expanded st
         then set_expanded false (set_wrapper (removeClass expandedClass) st)
         else set_expanded true (set_wrapper (addClass expandedClass) st).
Proof.
  unfold toggleCustomSelect. enter_bind.
  destruct (disabled st); [reflexivity|]. enter_bind.
  destruct (expanded st); reflexivity.
Qed.

Lemma toggleCustomSelect_result st :
  result (toggleCustomSelect st) = disabled st.
Proof.
  unfold toggleCustomSelect. enter_bind.
  destruct (disabled st); reflexivity.
Qed.

Lemma changeSelectItem_final s st :
  final (changeSelectItem s st) =
    set_selectElement (commit (jq_data_value s st)) st.
Proof.
  unfold changeSelectItem, commit, set_selectElement. rewrite !final_bind.
  cbn [reads write result final selectElement disabled expanded trigger
       wrapper list_items mounted].
  destruct (find_value _ _); reflexivity.
Qed.

Lemma changeSelectItem_result s st :
  result (changeSelectItem s st) =
    commit_runs (jq_data_value s st) (selectElement st).
Proof.
  unfold changeSelectItem, commit_runs, set_selectElement.
  rewrite !result_bind.
  cbn [reads write result final selectElement disabled expanded trigger
       wrapper list_items mounted].
  destruct (find_value _ _); reflexivity.
Qed.

(** Class updates leave the buttons alone. *)

(** Class updates leave the buttons alone. *)
Lemma li_update_lookup f s l i :
  li_update f s l !! i =
    (λ li, if bool_decide (i ∈ s)
           then mkItem (f (li_classes li)) (li_value li) (li_text li)
           else li) <$> l !! i.
Proof. unfold li_update. apply list_lookup_imap. Qed.

Lemma li_update_length f s l : length (li_update f s l) = length l.
Proof. apply length_imap. Qed.

Lemma li_update_value f s l i :
  li_value <$> li_update f s l !! i = li_value <$> l !! i.
Proof.
  rewrite li_update_lookup. destruct (l !! i) as [li|]; [|reflexivity].
  cbn. case_bool_decide; reflexivity.
Qed.

Lemma li_update_text f s l i :
  li_text <$> li_update f s l !! i = li_text <$> l !! i.
Proof.
  rewrite li_update_lookup. destruct (l !! i) as [li|]; [|reflexivity].
  cbn. case_bool_decide; reflexivity.
Qed.

Lemma jq_text_li_update f s' s st :
  jq_text s (set_list_items (li_update f s') st) = jq_text s st.
Proof.
  unfold jq_text. cbn [list_items set_list_items].
  induction s as [|i s IH]; [reflexivity|]. cbn [foldr]. rewrite IH.
  pose proof (li_update_text f s' (list_items st) i) as H.
  destruct (li_update f s' (list_items st) !! i), (list_items st !! i);
    cbn in H; congruence.
Qed.

Lemma jq_data_value_li_update f s' s st :
  jq_data_value s (set_list_items (li_update f s') st) = jq_data_value s st.
Proof.
  destruct s as [|i s]; [reflexivity|].
  cbn [jq_data_value list_items set_list_items].
  pose proof (li_update_value f s' (list_items st) i) as H.
  destruct (li_update f s' (list_items st) !! i), (list_items st !! i);
    cbn in H; congruence.
Qed.

Lemma jq_data_value_set_trigger t s st :
  jq_data_value s (set_trigger t st) = jq_data_value s st.
Proof. reflexivity. Qed.

Lemma changeSelectElement_final s st :
  final (changeSelectElement s st) =
    set_selectElement (commit (jq_data_value s st))
      (set_trigger (jq_text s st)
         (set_list_items
            (λ l, li_update (addClass selectedClass) s
                    (li_update (removeClass selectedClass)
                       (seq 0 (length l)) l)) st)).
Proof.
  unfold changeSelectElement. rewrite !final_bind.
  cbn [reads write result final updateTriggerText].
  rewrite changeSelectItem_final.
  unfold find_optionEl, jq_parent.
  set (st1 := set_list_items
                (li_update (removeClass selectedClass)
                   (seq 0 (length (list_items st)))) st).
  rewrite jq_data_value_set_trigger.
  rewrite (jq_data_value_li_update _ s s st1), (jq_text_li_update _ s s st1).
  subst st1.
  rewrite (jq_data_value_li_update _ _ s st), (jq_text_li_update _ _ s st).
  reflexivity.
Qed.

Lemma changeSelectElement_result s st :
  result (changeSelectElement s st) =
    commit_runs (jq_data_value s st) (selectElement st).
Proof.
  unfold changeSelectElement.
  do 6 (rewrite ?result_bind, ?final_bind;
        cbn [reads write result final updateTriggerText]).
  rewrite changeSelectItem_result, jq_data_value_set_trigger,
    !jq_data_value_li_update.
  reflexivity.
Qed.

Lemma final_ran (ran : bool) st :
  final ((if ran then mret true else mret false : M bool) st) = st.
Proof. destruct ran; reflexivity. Qed.

Lemma result_ran (ran : bool) st :
  result ((if ran then mret true else mret false : M bool) st) = ran.
Proof. destruct ran; reflexivity. Qed.

Lemma handleCustomListClick_final e st :
  final (handleCustomListClick e st) =
    if disabled st then st
    else match target e with
         | button i =>
             final (changeSelectElement [i] (final (toggleCustomSelect st)))
         | other_element => st
         end.
Proof.
  unfold handleCustomListClick. enter_bind.
  destruct (disabled st); [reflexivity|]. rewrite final_bind, final_ran.
  destruct (target e) as [i|]; reflexivity.
Qed.

Lemma handleCustomListClick_result e st :
  result (handleCustomListClick e st) =
    if disabled st then true
    else match target e with
         | button i =>
             result (changeSelectElement [i] (final (toggleCustomSelect st)))
         | other_element => true
         end.
Proof.
  unfold handleCustomListClick. enter_bind.
  destruct (disabled st); [reflexivity|]. rewrite result_bind, result_ran.
  destruct (target e) as [i|]; reflexivity.
Qed.

Lemma handleKeyboardSelect_final e st :
  final (handleKeyboardSelect e st) =
    if disabled st then st
    else match e_type e with
         | keyup => final (handleKeyboardInput e st)
         | blur => set_wrapper (removeClass focusClass) st
         | focus => set_wrapper (addClass focusClass) st
         | disable => set_disabled true st
         | click => st
         end.
Proof.
  unfold handleKeyboardSelect. enter_bind.
  destruct (disabled st); [reflexivity|]. rewrite final_bind, final_ran.
  destruct (e_type e); reflexivity.
Qed.

Lemma handleKeyboardSelect_result e st :
  result (handleKeyboardSelect e st) =
    if disabled st then true
    else match e_type e with
         | keyup => result (handleKeyboardInput e st)
         | _ => true
         end.
Proof.
  unfold handleKeyboardSelect. enter_bind.
  destruct (disabled st); [reflexivity|]. rewrite result_bind, result_ran.
  destruct (e_type e); reflexivity.
Qed.

(** Keyboard navigation touches the list, the trigger and the native
    control, nothing else. *)
Lemma handleKeyboardInput_frame e st :
  let st' := final (handleKeyboardInput e st) in
  disabled st' = disabled st ∧ expanded st' = expanded st ∧
  wrapper st' = wrapper st ∧ mounted st' = mounted st.
Proof.
  unfold handleKeyboardInput. rewrite !final_bind.
  cbn [reads result final].
  destruct (_ || _); [|destruct (_ || _)];
    try case_bool_decide; repeat split; try reflexivity;
    rewrite !final_bind; cbn [reads write result final updateTriggerText];
    rewrite changeSelectItem_final; reflexivity.
Qed.

Lemma changeSelectElement_frame s st :
  let st' := final (changeSelectElement s st) in
  disabled st' = disabled st ∧ expanded st' = expanded st ∧
  wrapper st' = wrapper st ∧ mounted st' = mounted st.
Proof. rewrite changeSelectElement_final. repeat split; reflexivity. Qed.

(** ** Construction *)

Lemma each_createListItem l st :
  final (each l createListItem st) =
    mkState (selectElement st) (disabled st) (expanded st)
      (foldl (λ t o, if o_selected o then o_text o else t) (trigger st) l)
      (wrapper st) (list_items st ++ (item_of <$> l))
      (match l with [] => mounted st | _ => true end).
Proof.
  revert st. induction l as [|o l IH]; intros st.
  - cbn. rewrite app_nil_r. destruct st; reflexivity.
  - cbn [each]. rewrite final_bind, IH.
    unfold createListItem, item_of. rewrite !final_bind.
    destruct (o_selected o) eqn:Ho;
      cbn; rewrite Ho, <- app_assoc; cbn; f_equal; destruct l; reflexivity.
Qed.

Lemma last_cons_default {A} (x : A) l :
  last (x :: l) = Some (default x (last l)).
Proof.
  revert x. induction l as [|y l IH]; intros x; [reflexivity|].
  change (last (x :: y :: l)) with (last (y :: l)). rewrite (IH y).
  destruct l; reflexivity.
Qed.

Lemma foldl_label t l :
  foldl (λ t o, if o_selected o then o_text o else t) t l =
    default t (o_text <$> last (List.filter o_selected l)).
Proof.
  revert t. induction l as [|o l IH]; intros t; [reflexivity|].
  cbn [foldl List.filter]. rewrite IH.
  destruct (o_selected o); [|reflexivity].
  rewrite last_cons_default.
  destruct (last (List.filter o_selected l)); reflexivity.
Qed.

Lemma CustomSelect_eq element :
  CustomSelect element =
    mkState (select_addClass replacedClass element) (sel_disabled element)
      false (initial_label (sel_options element))
      (if sel_disabled element
       then addClass disabledClass {[wrapperClass]} else {[wrapperClass]})
      (item_of <$> sel_options element)
      (match sel_options element with [] => false | _ => true end).
Proof.
  unfold CustomSelect, init, createCustomSelect.
  rewrite !final_bind. cbn [reads write result final].
  rewrite each_createListItem.
  unfold initial_label. rewrite <- foldl_label.
  destruct (sel_disabled element); reflexivity.
Qed.

(** ** The disabled guard *)

Lemma deliver_disabled st ev : disabled st = true → deliver st ev = st.
Proof.
  intros Hd. destruct ev as [src e]. unfold deliver, bindEventHandler.
  cbn [fst snd].
  destruct src, (e_type e) eqn:He; try reflexivity;
    rewrite ?toggleCustomSelect_final, ?handleCustomListClick_final,
      ?handleKeyboardSelect_final, Hd; reflexivity.
Qed.

Lemma run_disabled evs st : disabled st = true → run evs st = st.
Proof.
  intros Hd. induction evs as [|ev evs IH]; [reflexivity|].
  unfold run in *. cbn [foldl]. rewrite (deliver_disabled _ _ Hd). exact IH.
Qed.

(** C6.  Once [disabled] is true nothing the user does changes anything:
    a select, a selectRelative or a toggle leaves the whole state (widget
    state, rendered widget and native control) as it was, and so does any
    sequence of events delivered afterwards. *)
Theorem disabled_is_absorbing st :
  disabled st = true →
  (∀ i, final (select i st) = st) ∧
  (∀ k, final (selectRelative k st) = st) ∧
  final (toggleCustomSelect st) = st ∧
  (∀ evs, run evs st = st).
Proof.
  intros Hd. repeat split; intros.
  - unfold select. rewrite handleCustomListClick_final, Hd. reflexivity.
  - unfold selectRelative. rewrite handleKeyboardSelect_final, Hd. reflexivity.
  - rewrite toggleCustomSelect_final, Hd. reflexivity.
  - apply run_disabled, Hd.
Qed.

(** ** Expansion *)

Lemma select_expanded st i :
  disabled st = false →
  expanded (final (select i st)) = negb (expanded st).
Proof.
  intros Hd. unfold select.
  rewrite handleCustomListClick_final, Hd. cbn [target].
  destruct (changeSelectElement_frame [i] (final (toggleCustomSelect st)))
    as (_ & -> & _).
  rewrite toggleCustomSelect_final, Hd. destruct (expanded st); reflexivity.
Qed.

Lemma handleKeyboardSelect_expanded e st :
  expanded (final (handleKeyboardSelect e st)) = expanded st.
Proof.
  rewrite handleKeyboardSelect_final.
  destruct (disabled st); [reflexivity|].
  destruct (e_type e); try reflexivity.
  apply handleKeyboardInput_frame.
Qed.

(** C2, amended.  On a widget that is not disabled a pointer-driven select
    toggles the expansion state, so it closes a widget that was open; a
    selectRelative leaves the expansion state as it was. *)
Theorem select_toggles_selectRelative_keeps st i :
  disabled st = false →
  expanded (final (select i st)) = negb (expanded st) ∧
  (expanded st = true → expanded (final (select i st)) = false) ∧
  (∀ k, expanded (final (selectRelative k st)) = expanded st).
Proof.
  intros Hd. pose proof (select_expanded st i Hd) as H. repeat split.
  - exact H.
  - intros Hx. rewrite H, Hx. reflexivity.
  - intros k. apply handleKeyboardSelect_expanded.
Qed.

(** C4, amended.  On a widget that is not disabled a focus-lost event
    clears [focused] and changes nothing else: the expansion state, open
    or closed, stays as it was. *)
Theorem blur_clears_focus_only st kc t :
  disabled st = false →
  focused (final (handleKeyboardSelect (mkEvent blur kc t) st)) = false ∧
  expanded (final (handleKeyboardSelect (mkEvent blur kc t) st)) =
    expanded st ∧
  final (handleKeyboardSelect (mkEvent blur kc t) st) =
    set_wrapper (removeClass focusClass) st ∧
  (expandedClass ∈ wrapper (final (handleKeyboardSelect (mkEvent blur kc t) st))
   ↔ expandedClass ∈ wrapper st).
Proof.
  intros Hd. rewrite handleKeyboardSelect_final, Hd. cbn [e_type].
  unfold focused, set_wrapper. cbn [wrapper expanded].
  split; [|split; [|split]]; try reflexivity.
  - rewrite hasClass_removeClass, bool_decide_eq_true_2; reflexivity.
  - rewrite elem_of_removeClass. intuition discriminate.
Qed.

(** ** The expansion flag and its class *)

Lemma CustomSelect_in_step element : expansion_in_step (CustomSelect element).
Proof.
  rewrite CustomSelect_eq. unfold expansion_in_step. cbn [expanded wrapper].
  split; [discriminate|].
  destruct (sel_disabled element);
    rewrite ?elem_of_addClass, elem_of_singleton; intuition discriminate.
Qed.

Lemma toggleCustomSelect_in_step st :
  expansion_in_step st → expansion_in_step (final (toggleCustomSelect st)).
Proof.
  intros Hinv. rewrite toggleCustomSelect_final.
  destruct (disabled st); [exact Hinv|].
  unfold expansion_in_step, set_expanded, set_wrapper.
  destruct (expanded st); cbn [expanded wrapper].
  - rewrite elem_of_removeClass. intuition discriminate.
  - rewrite elem_of_addClass. intuition.
Qed.

Lemma handleKeyboardSelect_expansion e st :
  expanded (final (handleKeyboardSelect e st)) = expanded st ∧
  (expandedClass ∈ wrapper (final (handleKeyboardSelect e st))
   ↔ expandedClass ∈ wrapper st).
Proof.
  split; [apply handleKeyboardSelect_expanded|].
  rewrite handleKeyboardSelect_final.
  destruct (disabled st); [reflexivity|].
  destruct (e_type e); try reflexivity; unfold set_wrapper; cbn [wrapper].
  - rewrite elem_of_addClass. intuition discriminate.
  - rewrite elem_of_removeClass. intuition discriminate.
  - destruct (handleKeyboardInput_frame e st) as (_ & _ & -> & _).
    reflexivity.
Qed.

Lemma deliver_in_step st ev :
  expansion_in_step st → expansion_in_step (deliver st ev).
Proof.
  intros Hinv. destruct ev as [src e]. unfold deliver, bindEventHandler.
  cbn [fst snd].
  assert (Hlist : expansion_in_step (final (handleCustomListClick e st))).
  { rewrite handleCustomListClick_final.
    destruct (disabled st); [exact Hinv|].
    destruct (target e) as [i|]; [|exact Hinv].
    apply toggleCustomSelect_in_step in Hinv. revert Hinv.
    unfold expansion_in_step.
    destruct (changeSelectElement_frame [i] (final (toggleCustomSelect st)))
      as (_ & -> & -> & _).
    tauto. }
  assert (Hkey : expansion_in_step (final (handleKeyboardSelect e st))).
  { unfold expansion_in_step in *.
    destruct (handleKeyboardSelect_expansion e st) as [-> ->]. exact Hinv. }
  destruct src, (e_type e); try assumption;
    auto using toggleCustomSelect_in_step.
Qed.

Lemma run_in_step evs st :
  expansion_in_step st → expansion_in_step (run evs st).
Proof.
  revert st. induction evs as [|ev evs IH]; intros st Hinv; [exact Hinv|].
  unfold run in *. cbn [foldl]. apply IH, deliver_in_step, Hinv.
Qed.

(** C10.  In every state a widget reaches after construction the
    [expanded] flag is true exactly when the wrapper carries the expanded
    class.  Opening sets both and closing clears both; the keyboard and
    focus handler and the selection update change neither. *)
Theorem expanded_flag_matches_class element evs :
  (expanded (widget element evs) = true
   ↔ expandedClass ∈ wrapper (widget element evs)) ∧
  (∀ st, expanded (final (openCustomSelect st)) = true ∧
         expandedClass ∈ wrapper (final (openCustomSelect st))) ∧
  (∀ st, expanded (final (closeCustomSelect st)) = false ∧
         expandedClass ∉ wrapper (final (closeCustomSelect st))) ∧
  (∀ st e, expanded (final (handleKeyboardSelect e st)) = expanded st ∧
           (expandedClass ∈ wrapper (final (handleKeyboardSelect e st))
            ↔ expandedClass ∈ wrapper st)) ∧
  (∀ st s, expanded (final (changeSelectElement s st)) = expanded st ∧
           wrapper (final (changeSelectElement s st)) = wrapper st).
Proof.
  split; [|split; [|split; [|split]]].
  - apply run_in_step, CustomSelect_in_step.
  - intros st. split; [reflexivity|].
    change (expandedClass ∈ addClass expandedClass (wrapper st)).
    rewrite elem_of_addClass. auto.
  - intros st. split; [reflexivity|].
    change (expandedClass ∉ removeClass expandedClass (wrapper st)).
    rewrite elem_of_removeClass. tauto.
  - intros st e. apply handleKeyboardSelect_expansion.
  - intros st s.
    destruct (changeSelectElement_frame s st) as (_ & H1 & H2 & _).
    split; assumption.
Qed.

(** ** Keyboard navigation at the ends of the list *)

Lemma jq_eq_seq n k :
  jq_eq (seq 0 n) k =
    if (0 <=? (if k <? 0 then k + Z.of_nat n else k))
       && ((if k <? 0 then k + Z.of_nat n else k) <? Z.of_nat n)
    then [Z.to_nat (if k <? 0 then k + Z.of_nat n else k)]
    else [].
Proof.
  unfold jq_eq. rewrite length_seq.
  set (j := if k <? 0 then k + Z.of_nat n else k).
  destruct (0 <=? j) eqn:H0; [|reflexivity].
  destruct (j <? Z.of_nat n) eqn:H1; [|reflexivity]. cbn [andb].
  rewrite lookup_seq_lt by lia. reflexivity.
Qed.

Lemma jq_eq_seq_in n k :
  0 ≤ k < Z.of_nat n → jq_eq (seq 0 n) k = [Z.to_nat k].
Proof.
  intros Hk. rewrite jq_eq_seq.
  destruct (Z.ltb_spec k 0); [lia|].
  destruct (Z.leb_spec 0 k); [|lia].
  destruct (Z.ltb_spec k (Z.of_nat n)); [reflexivity|lia].
Qed.

Lemma handleKeyboardInput_none e st ns :
  (if (keyCode e =? 38) || (keyCode e =? 37)
   then Some (jq_prev (jq_eq (find_li st) (selectedIndex st)))
   else if (keyCode e =? 40) || (keyCode e =? 39)
   then Some (jq_next st (jq_eq (find_li st) (selectedIndex st)))
   else None) = ns →
  ns = None ∨ ns = Some [] →
  handleKeyboardInput e st = mkRun true st [].
Proof.
  intros Hns Hcase. unfold handleKeyboardInput. unfold selectedIndex in Hns.
  cbv [mbind M_bind reads]. cbn [result final writes].
  rewrite Hns. destruct Hcase as [-> | ->]; reflexivity.
Qed.

(** C7.  With the first item selected a key-up of the up or left arrow
    changes nothing, and with the last item selected neither does one of
    the down or right arrow: the state after is the state before, the
    selection does not wrap around. *)
Theorem selectRelative_stops_at_the_ends st k :
  (key_direction k = Previous → selectedIndex st = 0 →
   final (selectRelative k st) = st) ∧
  (key_direction k = Next →
   selectedIndex st = Z.of_nat (length (list_items st)) - 1 →
   final (selectRelative k st) = st).
Proof.
  assert (Hgen : ∀ ns,
    (if (key_code k =? 38) || (key_code k =? 37)
     then Some (jq_prev (jq_eq (find_li st) (selectedIndex st)))
     else if (key_code k =? 40) || (key_code k =? 39)
     then Some (jq_next st (jq_eq (find_li st) (selectedIndex st)))
     else None) = ns →
    ns = None ∨ ns = Some [] → final (selectRelative k st) = st).
  { intros ns Hns Hcase. unfold selectRelative.
    rewrite handleKeyboardSelect_final. cbn [e_type].
    destruct (disabled st); [reflexivity|].
    rewrite (handleKeyboardInput_none _ st ns); [reflexivity|exact Hns|exact Hcase]. }
  unfold find_li in Hgen. split; intros Hk Hsel.
  - eapply Hgen; [reflexivity|]. right.
    rewrite Hsel, jq_eq_seq.
    destruct k; try discriminate Hk; cbn [key_code Z.eqb orb Pos.eqb];
      destruct (length (list_items st)); reflexivity.
  - eapply Hgen; [reflexivity|]. right.
    rewrite Hsel.
    destruct k; try discriminate Hk; cbn [key_code Z.eqb orb Pos.eqb].
    all: destruct (length (list_items st)) as [|n] eqn:Hn;
      [rewrite jq_eq_seq; reflexivity|].
    all: rewrite jq_eq_seq_in by lia.
    all: replace (Z.to_nat (Z.of_nat (S n) - 1)) with n by lia.
    all: unfold jq_next; cbn [flat_map app]; rewrite Hn.
    all: rewrite bool_decide_eq_false_2 by lia; reflexivity.
Qed.

(** ** The commit to the native control *)

Lemma clear_selected_options sel :
  sel_options (clear_selected sel) =
    (λ o, mkOption (o_value o) (o_text o) false (o_has_value o))
      <$> sel_options sel.
Proof. reflexivity. Qed.

Lemma clear_selected_twice sel :
  clear_selected (clear_selected sel) = clear_selected sel.
Proof.
  unfold clear_selected.
  cbn [sel_classes sel_disabled sel_options sel_value]. f_equal.
  - rewrite <- list_fmap_compose. reflexivity.
  - destruct (sel_options sel); reflexivity.
Qed.

Lemma clear_selected_after v found sel :
  clear_selected (val v (mark_selected found (clear_selected sel))) =
    clear_selected sel.
Proof.
  unfold clear_selected, val, mark_selected.
  cbn [sel_classes sel_disabled sel_options sel_value]. f_equal.
  - apply list_eq. intros i.
    rewrite !list_lookup_fmap, list_lookup_imap, list_lookup_fmap.
    destruct (sel_options sel !! i) as [o|]; [|reflexivity].
    cbn. case_bool_decide; reflexivity.
  - destruct (sel_options sel) as [|o l]; [reflexivity|].
    cbn. case_bool_decide; reflexivity.
Qed.

Lemma commit_idem value sel :
  commit value (commit value sel) = commit value sel.
Proof.
  unfold commit at 2.
  destruct (find_value _ (sel_options (clear_selected sel))) as [found|] eqn:Hf;
    unfold commit.
  - rewrite clear_selected_after, Hf. reflexivity.
  - rewrite clear_selected_twice, Hf. reflexivity.
Qed.

(** A commit changes marks and the current value, nothing else. *)
Lemma commit_fixed value sel :
  o_value <$> sel_options (commit value sel) = o_value <$> sel_options sel ∧
  o_text <$> sel_options (commit value sel) = o_text <$> sel_options sel ∧
  sel_disabled (commit value sel) = sel_disabled sel ∧
  sel_classes (commit value sel) = sel_classes sel.
Proof.
  unfold commit.
  destruct (find_value _ _) as [found|];
    unfold clear_selected, val, mark_selected;
    cbn [sel_classes sel_disabled sel_options sel_value];
    (split; [|split; [|split; reflexivity]]);
    apply list_eq; intros i;
    rewrite ?list_lookup_fmap, ?list_lookup_imap, ?list_lookup_fmap;
    destruct (sel_options sel !! i) as [o|]; try reflexivity;
    cbn; try case_bool_decide; reflexivity.
Qed.

Lemma data_convert_plain s :
  plain_token s = true → data_convert s = js_text s.
Proof.
  unfold plain_token, converted, data_convert.
  intros [Hid Hc]%andb_true_iff.
  apply negb_true_iff in Hc.
  apply orb_false_iff in Hc as [[H1 H2]%orb_false_iff H3].
  rewrite H1, H2, H3, (parse_json_identifier s Hid). reflexivity.
Qed.

Lemma find_first_value v opts :
  v ∈ o_value <$> opts →
  o_value <$> List.find (λ o, bool_decide (o_value o ∈ [v])) opts = Some v.
Proof.
  intros Hin. induction opts as [|o opts IH]; [inversion Hin|].
  cbn [List.find]. case_bool_decide as Ho.
  - apply list_elem_of_singleton in Ho. cbn. congruence.
  - apply IH. cbn in Hin. apply elem_of_cons in Hin as [->|Hin].
    + exfalso. apply Ho, list_elem_of_singleton. reflexivity.
    + exact Hin.
Qed.

(** A plain token that is the [val()] of an option is taken to the native
    control as it is: the commit runs to its end and the control reads the
    token. *)
Lemma commit_plain v sel :
  plain_token v = true → v ∈ o_value <$> sel_options sel →
  sel_value (commit (js_text v) sel) = Some v ∧
  commit_runs (js_text v) sel = true.
Proof.
  intros Hp Hin. unfold commit, commit_runs. cbn [js_to_string].
  apply andb_true_iff in Hp as [Hid _].
  rewrite (find_value_identifier v _ Hid). split; [|reflexivity].
  unfold val, mark_selected, clear_selected.
  cbn [sel_value sel_options val_accepts].
  apply find_first_value.
  replace (o_value <$> imap _ _) with (o_value <$> sel_options sel);
    [exact Hin|].
  apply list_eq. intros i.
  rewrite !list_lookup_fmap, list_lookup_imap, list_lookup_fmap.
  destruct (sel_options sel !! i) as [o|]; [|reflexivity].
  cbn. case_bool_decide; reflexivity.
Qed.

Lemma li_update_values f s l : li_value <$> li_update f s l = li_value <$> l.
Proof.
  apply list_eq. intros i. rewrite !list_lookup_fmap. apply li_update_value.
Qed.

Lemma toggleCustomSelect_frame st :
  selectElement (final (toggleCustomSelect st)) = selectElement st ∧
  list_items (final (toggleCustomSelect st)) = list_items st ∧
  trigger (final (toggleCustomSelect st)) = trigger st ∧
  disabled (final (toggleCustomSelect st)) = disabled st.
Proof.
  rewrite toggleCustomSelect_final.
  destruct (disabled st) eqn:Hd, (expanded st); cbn; rewrite ?Hd; auto.
Qed.

(** ** Selecting twice *)

Lemma classes_select_idem c (cs : classes) :
  addClass c (removeClass c (addClass c (removeClass c cs))) =
    addClass c (removeClass c cs).
Proof.
  apply set_eq. intros x.
  rewrite !elem_of_addClass, !elem_of_removeClass, !elem_of_addClass,
    !elem_of_removeClass.
  destruct (decide (x = c)); tauto.
Qed.

Lemma classes_remove_idem c (cs : classes) :
  removeClass c (removeClass c cs) = removeClass c cs.
Proof.
  apply set_eq. intros x. rewrite !elem_of_removeClass. tauto.
Qed.

Lemma li_select_idem s l :
  li_update (addClass selectedClass) s
    (li_update (removeClass selectedClass)
       (seq 0 (length (li_update (addClass selectedClass) s
                         (li_update (removeClass selectedClass)
                            (seq 0 (length l)) l))))
       (li_update (addClass selectedClass) s
          (li_update (removeClass selectedClass) (seq 0 (length l)) l))) =
  li_update (addClass selectedClass) s
    (li_update (removeClass selectedClass) (seq 0 (length l)) l).
Proof.
  apply list_eq. intros j. rewrite !li_update_lookup, !li_update_length.
  destruct (l !! j) as [li|] eqn:Hj; [|reflexivity].
  cbn [fmap option_fmap option_map].
  rewrite (bool_decide_eq_true_2 (j ∈ seq 0 (length l)))
    by (apply elem_of_seq; apply lookup_lt_Some in Hj; lia).
  f_equal. destruct (bool_decide (j ∈ s)); cbn [li_classes li_value li_text].
  - rewrite classes_select_idem. reflexivity.
  - rewrite classes_remove_idem. reflexivity.
Qed.

Lemma jq_data_value_ext s st st' :
  list_items st = list_items st' → jq_data_value s st = jq_data_value s st'.
Proof. intros H. unfold jq_data_value. rewrite H. reflexivity. Qed.

Lemma jq_text_ext s st st' :
  list_items st = list_items st' → jq_text s st = jq_text s st'.
Proof. intros H. unfold jq_text. rewrite H. reflexivity. Qed.

(** The selection update reads the list and the native control only. *)
Lemma changeSelectElement_view s st st' :
  list_items st = list_items st' →
  selectElement st = selectElement st' →
  list_items (final (changeSelectElement s st)) =
    list_items (final (changeSelectElement s st')) ∧
  trigger (final (changeSelectElement s st)) =
    trigger (final (changeSelectElement s st')) ∧
  selectElement (final (changeSelectElement s st)) =
    selectElement (final (changeSelectElement s st')).
Proof.
  intros Hl Hs. rewrite !changeSelectElement_final.
  cbn [list_items trigger selectElement set_selectElement set_trigger
       set_list_items].
  rewrite (jq_data_value_ext s st st' Hl), (jq_text_ext s st st' Hl), Hl, Hs.
  auto.
Qed.

Lemma li_update_texts f s l : li_text <$> li_update f s l = li_text <$> l.
Proof.
  apply list_eq. intros i. rewrite !list_lookup_fmap. apply li_update_text.
Qed.

Lemma jq_data_value_values s st st' :
  li_value <$> list_items st = li_value <$> list_items st' →
  jq_data_value s st = jq_data_value s st'.
Proof.
  intros H. destruct s as [|i s]; [reflexivity|]. cbn [jq_data_value].
  assert (Hi : li_value <$> list_items st !! i = li_value <$> list_items st' !! i)
    by (rewrite <- !list_lookup_fmap, H; reflexivity).
  destruct (list_items st !! i), (list_items st' !! i);
    cbn in Hi; congruence.
Qed.

Lemma jq_text_texts s st st' :
  li_text <$> list_items st = li_text <$> list_items st' →
  jq_text s st = jq_text s st'.
Proof.
  intros H. unfold jq_text. induction s as [|i s IH]; [reflexivity|].
  cbn [foldr]. rewrite IH.
  assert (Hi : li_text <$> list_items st !! i = li_text <$> list_items st' !! i)
    by (rewrite <- !list_lookup_fmap, H; reflexivity).
  destruct (list_items st !! i), (list_items st' !! i);
    cbn in Hi; congruence.
Qed.

Lemma changeSelectElement_idem s st :
  final (changeSelectElement s (final (changeSelectElement s st))) =
    final (changeSelectElement s st).
Proof.
  rewrite (changeSelectElement_final s (final (changeSelectElement s st))).
  rewrite (changeSelectElement_final s st).
  set (F := λ l, li_update (addClass selectedClass) s
                   (li_update (removeClass selectedClass)
                      (seq 0 (length l)) l)).
  assert (Hv : ∀ t g, jq_data_value s
             (set_selectElement g (set_trigger t (set_list_items F st)))
           = jq_data_value s st).
  { intros t g. apply jq_data_value_values. subst F.
    cbn [list_items set_selectElement set_trigger set_list_items].
    rewrite !li_update_values. reflexivity. }
  assert (Ht : ∀ t g, jq_text s
             (set_selectElement g (set_trigger t (set_list_items F st)))
           = jq_text s st).
  { intros t g. apply jq_text_texts. subst F.
    cbn [list_items set_selectElement set_trigger set_list_items].
    rewrite !li_update_texts. reflexivity. }
  rewrite Hv, Ht.
  unfold set_selectElement, set_trigger, set_list_items.
  cbn [selectElement disabled expanded trigger wrapper list_items mounted].
  f_equal.
  - apply commit_idem.
  - subst F. cbn beta. apply li_select_idem.
Qed.

(** C8, amended.  The selection update itself is idempotent: applied twice
    to the same target it leaves the state it leaves when applied once.  A
    pointer-driven select(i) also toggles the expansion state each time,
    so on a widget that is not disabled two of them leave the rendered
    selection, the trigger label and the native control as one does, and
    the expansion state as it was before the first. *)
Theorem select_twice_same_selection st i :
  disabled st = false →
  final (changeSelectElement [i] (final (changeSelectElement [i] st))) =
    final (changeSelectElement [i] st) ∧
  list_items (final (select i (final (select i st)))) =
    list_items (final (select i st)) ∧
  trigger (final (select i (final (select i st)))) =
    trigger (final (select i st)) ∧
  selectElement (final (select i (final (select i st)))) =
    selectElement (final (select i st)) ∧
  expanded (final (select i (final (select i st)))) = expanded st.
Proof.
  intros Hd. split; [apply changeSelectElement_idem|].
  assert (Hd1 : disabled (final (select i st)) = false).
  { unfold select. rewrite handleCustomListClick_final, Hd. cbn [target].
    destruct (changeSelectElement_frame [i] (final (toggleCustomSelect st)))
      as (-> & _).
    destruct (toggleCustomSelect_frame st) as (_ & _ & _ & ->). exact Hd. }
  assert (Hx : expanded (final (select i (final (select i st))))
               = expanded st).
  { rewrite (select_expanded _ i Hd1), (select_expanded _ i Hd).
    apply negb_involutive. }
  set (once := final (select i st)) in *.
  assert (Honce : once =
            final (changeSelectElement [i] (final (toggleCustomSelect st)))).
  { subst once. unfold select. rewrite handleCustomListClick_final, Hd.
    reflexivity. }
  assert (Htwice : final (select i once) =
            final (changeSelectElement [i] (final (toggleCustomSelect once)))).
  { unfold select. rewrite handleCustomListClick_final, Hd1. reflexivity. }
  rewrite Htwice in *.
  destruct (toggleCustomSelect_frame once) as (Hsel & Hli & _).
  destruct (changeSelectElement_view [i] _ _ Hli Hsel) as (-> & -> & ->).
  rewrite Honce, changeSelectElement_idem.
  repeat split. rewrite <- Honce. exact Hx.
Qed.

(** ** The order of the writes *)

Lemma toggleCustomSelect_writes st :
  writes (toggleCustomSelect st) =
    if disabled st then []
    else if expanded st
         then [set_wrapper (removeClass expandedClass) st;
               set_expanded false (set_wrapper (removeClass expandedClass) st)]
         else [set_wrapper (addClass expandedClass) st;
               set_expanded true (set_wrapper (addClass expandedClass) st)].
Proof.
  unfold toggleCustomSelect. enter_bind.
  destruct (disabled st); [reflexivity|]. enter_bind.
  destruct (expanded st); reflexivity.
Qed.

Lemma writes_ran (ran : bool) st :
  writes ((if ran then mret true else mret false : M bool) st) = [].
Proof. destruct ran; reflexivity. Qed.

Lemma select_writes st i :
  disabled st = false →
  writes (select i st) =
    writes (toggleCustomSelect st) ++
    writes (changeSelectElement [i] (final (toggleCustomSelect st))).
Proof.
  intros Hd. unfold select, handleCustomListClick.
  rewrite writes_bind. cbn [reads result final writes target]. rewrite Hd.
  rewrite !writes_bind, writes_ran. cbn [app]. rewrite app_nil_r. reflexivity.
Qed.

(** C3, amended.  A pointer-driven select on a widget that is not disabled
    writes in this order: first the expansion state (two writes that leave
    rendering and native control alone), then the rendered selection and
    trigger label (three writes, with the expansion state already final and
    the native control still untouched), and last the native control (three
    writes when the commit runs to its end, one when it is left by the
    exception of a rejected selector and the default action of the click
    is not suppressed; expansion and rendering are already final).
    Keyboard navigation likewise updates the rendering before the native
    control.  So the native control is the last view written. *)
Theorem select_writes_in_order st i :
  disabled st = false →
  (∃ es rs ns,
     writes (select i st) = es ++ rs ++ ns ∧
     length es = 2%nat ∧ length rs = 3%nat ∧
     length ns = (if result (select i st) then 3 else 1)%nat ∧
     Forall (λ s, rendering_of s = rendering_of st ∧
                  selectElement s = selectElement st) es ∧
     Forall (λ s, expansion_of s = expansion_of (final (select i st)) ∧
                  selectElement s = selectElement st) rs ∧
     Forall (λ s, expansion_of s = expansion_of (final (select i st)) ∧
                  rendering_of s = rendering_of (final (select i st))) ns) ∧
  (∀ k, ∃ rs ns,
     writes (selectRelative k st) = rs ++ ns ∧
     Forall (λ s, expansion_of s = expansion_of st ∧
                  selectElement s = selectElement st) rs ∧
     Forall (λ s, expansion_of s = expansion_of st ∧
                  rendering_of s =
                    rendering_of (final (selectRelative k st))) ns).
Proof.
  intros Hd. split.
  - rewrite (select_writes st i Hd), toggleCustomSelect_writes.
    unfold select.
    rewrite handleCustomListClick_final, handleCustomListClick_result.
    cbn [target]. rewrite toggleCustomSelect_final, Hd.
    destruct (expanded st);
      unfold changeSelectElement, changeSelectItem;
      do 8 (rewrite ?writes_bind, ?final_bind, ?result_bind;
            cbn [reads write result final writes updateTriggerText app]);
      destruct (find_value _ _);
      do 3 (rewrite ?writes_bind, ?final_bind, ?result_bind;
            cbn [reads write result final writes mret M_ret app]).
    + eexists [_; _], [_; _; _], [_; _; _].
      split; [reflexivity|]. cbn [length].
      repeat split; try lia; repeat constructor.
    + eexists [_; _], [_; _; _], [_].
      split; [reflexivity|]. cbn [length].
      repeat split; try lia; repeat constructor.
    + eexists [_; _], [_; _; _], [_; _; _].
      split; [reflexivity|]. cbn [length].
      repeat split; try lia; repeat constructor.
    + eexists [_; _], [_; _; _], [_].
      split; [reflexivity|]. cbn [length].
      repeat split; try lia; repeat constructor.
  - intros k. unfold selectRelative.
    rewrite handleKeyboardSelect_final. unfold handleKeyboardSelect.
    rewrite writes_bind. cbn [reads result final writes]. rewrite Hd.
    rewrite writes_bind, writes_ran, app_nil_r. cbn [e_type app].
    unfold handleKeyboardInput.
    do 3 (rewrite ?writes_bind, ?final_bind, ?result_bind;
          cbn [reads result final writes app]).
    destruct (_ || _); [|destruct (_ || _)];
      try case_bool_decide;
      try (exists [], []; repeat split; constructor).
    all: do 8 (rewrite ?writes_bind, ?final_bind, ?result_bind;
               cbn [reads write result final writes updateTriggerText app]);
      unfold changeSelectItem;
      do 4 (rewrite ?writes_bind, ?final_bind, ?result_bind;
            cbn [reads write result final writes updateTriggerText app]);
      destruct (find_value _ _);
      do 3 (rewrite ?writes_bind, ?final_bind, ?result_bind;
            cbn [reads write result final writes mret M_ret app]).
    + eexists [_; _; _], [_; _; _].
      split; [reflexivity|]. repeat split; repeat constructor.
    + eexists [_; _; _], [_].
      split; [reflexivity|]. repeat split; repeat constructor.
    + eexists [_; _; _], [_; _; _].
      split; [reflexivity|]. repeat split; repeat constructor.
    + eexists [_; _; _], [_].
      split; [reflexivity|]. repeat split; repeat constructor.
Qed.

(** * Further properties *)

(** ** Collections *)

Lemma append_empty_r (s : string) : s +:+ EmptyString = s.
Proof.
  induction s as [|a s IH]; [reflexivity|].
  change (String a (s +:+ EmptyString) = String a s). f_equal. exact IH.
Qed.

Lemma positions_none {A} (p : A → bool) l i :
  (∀ x, x ∈ l → p x = false) → positions p l i = [].
Proof.
  revert i. induction l as [|x l IH]; intros i H; [reflexivity|].
  cbn [positions]. rewrite (H x) by apply list_elem_of_here.
  apply IH. intros y Hy. apply H, list_elem_of_further, Hy.
Qed.

Lemma positions_single {A} (p : A → bool) l i k :
  (k < length l)%nat →
  (∀ j x, l !! j = Some x → p x = bool_decide (j = k)) →
  positions p l i = [(i + k)%nat].
Proof.
  revert i k. induction l as [|x l IH]; intros i k Hk H; [cbn in Hk; lia|].
  cbn [positions]. rewrite (H 0%nat x eq_refl). destruct k as [|k].
  - rewrite bool_decide_eq_true_2 by reflexivity.
    rewrite positions_none; [cbn; f_equal; lia|].
    intros y Hy. apply list_elem_of_lookup in Hy as [j Hj].
    rewrite (H (S j) y Hj). apply bool_decide_eq_false_2. lia.
  - rewrite bool_decide_eq_false_2 by lia. cbn [app].
    rewrite (IH (S i) k); [f_equal; lia|cbn in Hk; lia|].
    intros j y Hj. rewrite (H (S j) y Hj).
    apply bool_decide_ext. lia.
Qed.

Lemma elem_of_positions {A} (p : A → bool) l i j :
  j ∈ positions p l i ↔
  ∃ x, (i ≤ j)%nat ∧ l !! (j - i)%nat = Some x ∧ p x = true.
Proof.
  revert i. induction l as [|x l IH]; intros i; cbn [positions].
  - split; [intros H; inversion H|intros (y & _ & Hy & _); discriminate Hy].
  - rewrite elem_of_app, IH. split.
    + intros [Hx | (y & Hle & Hy & Hp)].
      * destruct (p x) eqn:Hpx; [|inversion Hx].
        apply list_elem_of_singleton in Hx as ->. exists x.
        rewrite Nat.sub_diag. auto.
      * exists y. split; [lia|]. split; [|exact Hp].
        replace (j - i)%nat with (S (j - S i)) by lia. exact Hy.
    + intros (y & Hle & Hy & Hp).
      destruct (decide (j = i)) as [->|Hne].
      * left. rewrite Nat.sub_diag in Hy. injection Hy as ->.
        rewrite Hp. apply list_elem_of_here.
      * right. exists y. split; [lia|]. split; [|exact Hp].
        replace (j - i)%nat with (S (j - S i)) in Hy by lia. exact Hy.
Qed.

(** Exactly the item at [k] is selected. *)
Lemma find_selectedEl_single st k :
  find_selectedEl st = [k] ↔
  (k < length (list_items st))%nat ∧
  ∀ j li, list_items st !! j = Some li →
          hasClass selectedClass (li_classes li) = bool_decide (j = k).
Proof.
  unfold find_selectedEl. split.
  - intros H.
    assert (Hin : ∀ j, j ∈ positions
                (λ li, hasClass selectedClass (li_classes li))
                (list_items st) 0 ↔ j = k).
    { intros j. rewrite H. apply list_elem_of_singleton. }
    split.
    + pose proof (proj2 (Hin k) eq_refl) as Hk.
      apply elem_of_positions in Hk as (x & _ & Hx & _).
      apply lookup_lt_Some in Hx. lia.
    + intros j li Hj. apply eq_true_iff_eq.
      rewrite bool_decide_eq_true, <- Hin, elem_of_positions.
      rewrite Nat.sub_0_r. split.
      * intros Hp. exists li. split; [lia|]. auto.
      * intros (x & _ & Hx & Hp). congruence.
  - intros [Hk H]. apply (positions_single _ _ 0%nat k Hk H).
Qed.

Lemma find_selectedEl_none st :
  find_selectedEl st = [] ↔
  ∀ j li, list_items st !! j = Some li →
          hasClass selectedClass (li_classes li) = false.
Proof.
  unfold find_selectedEl. split.
  - intros H j li Hj. apply not_true_is_false. intros Hp.
    assert (Hin : j ∈ positions
              (λ li, hasClass selectedClass (li_classes li))
              (list_items st) 0).
    { apply elem_of_positions. exists li. rewrite Nat.sub_0_r.
      split; [lia|]. auto. }
    rewrite H in Hin. inversion Hin.
  - intros H. apply positions_none. intros x Hx.
    apply list_elem_of_lookup in Hx as [j Hj]. exact (H j x Hj).
Qed.

Lemma positions_fmap {A B} (p : B → bool) (f : A → B) l i :
  positions p (f <$> l) i = positions (λ x, p (f x)) l i.
Proof.
  revert i. induction l as [|x l IH]; intros i; [reflexivity|].
  cbn [fmap list_fmap positions]. f_equal. apply IH.
Qed.

Lemma positions_ext {A} (p q : A → bool) l i :
  (∀ x, p x = q x) → positions p l i = positions q l i.
Proof.
  intros Hpq. revert i. induction l as [|x l IH]; intros i; [reflexivity|].
  cbn [positions]. rewrite Hpq, IH. reflexivity.
Qed.

Lemma positions_nil_filter {A} (p : A → bool) l i :
  positions p l i = [] → List.filter p l = [].
Proof.
  revert i. induction l as [|x l IH]; intros i; [reflexivity|].
  cbn [positions List.filter]. destruct (p x); [discriminate|]. apply IH.
Qed.

Lemma positions_single_filter {A} (p : A → bool) l i j :
  positions p l i = [j] →
  ∃ x, l !! (j - i)%nat = Some x ∧ List.filter p l = [x].
Proof.
  revert i. induction l as [|x l IH]; intros i; [discriminate|].
  cbn [positions List.filter]. destruct (p x).
  - cbn [app]. intros [= <- Hrest]. exists x. rewrite Nat.sub_diag.
    rewrite (positions_nil_filter p l _ Hrest). auto.
  - cbn [app]. intros Hpos.
    assert (Hle : (S i ≤ j)%nat).
    { assert (Hin : j ∈ positions p l (S i))
        by (rewrite Hpos; apply list_elem_of_here).
      apply elem_of_positions in Hin as (_ & Hle & _). exact Hle. }
    destruct (IH (S i) Hpos) as (y & Hy & Hf). exists y.
    replace (j - i)%nat with (S (j - S i)) by lia. auto.
Qed.

(** ** Closed forms of the handlers *)

Lemma handleKeyboardInput_final e st :
  final (handleKeyboardInput e st) =
    match nextSelection_of e st with
    | Some ns => if bool_decide (0 < length ns)%nat then moved_to ns st else st
    | None => st
    end.
Proof.
  unfold handleKeyboardInput, nextSelection_of, selectedIndex, moved_to.
  rewrite !final_bind. cbn [reads result final].
  destruct (_ || _); [|destruct (_ || _)];
    try case_bool_decide; try reflexivity;
    rewrite !final_bind; cbn [reads write result final updateTriggerText];
    rewrite changeSelectItem_final; reflexivity.
Qed.

Lemma handleKeyboardInput_result e st :
  result (handleKeyboardInput e st) = true ∨
  ∃ s st', result (handleKeyboardInput e st) =
             commit_runs (jq_data_value s st') (selectElement st') ∧
           fixed_part st' = fixed_part st.
Proof.
  unfold handleKeyboardInput. rewrite !result_bind. cbn [reads result final].
  destruct (_ || _); [|destruct (_ || _)];
    try case_bool_decide; try (left; reflexivity);
    right;
    do 6 (rewrite ?result_bind, ?final_bind;
          cbn [reads write result final updateTriggerText]);
    rewrite changeSelectItem_result; eexists _, _; (split; [reflexivity|]);
    unfold fixed_part;
    cbn [list_items selectElement set_list_items set_trigger];
    rewrite !li_update_values, !li_update_texts; reflexivity.
Qed.

Lemma select_final st i :
  disabled st = false →
  final (select i st) =
    final (changeSelectElement [i] (final (toggleCustomSelect st))).
Proof.
  intros Hd. unfold select. rewrite handleCustomListClick_final, Hd.
  reflexivity.
Qed.

(** ** The rendering after a selection *)

Lemma hasClass_select_target (cs : classes) :
  hasClass selectedClass (addClass selectedClass cs) = true.
Proof. rewrite hasClass_addClass, bool_decide_eq_true_2; reflexivity. Qed.

Lemma hasClass_deselect (cs : classes) :
  hasClass selectedClass (removeClass selectedClass cs) = false.
Proof. rewrite hasClass_removeClass, bool_decide_eq_true_2; reflexivity. Qed.

Lemma changeSelectElement_selected i st li :
  list_items st !! i = Some li →
  find_selectedEl (final (changeSelectElement [i] st)) = [i] ∧
  trigger (final (changeSelectElement [i] st)) = li_text li ∧
  jq_data_value [i] st = data_convert (li_value li) ∧
  length (list_items (final (changeSelectElement [i] st))) =
    length (list_items st).
Proof.
  intros Hi. rewrite changeSelectElement_final.
  cbn [trigger list_items set_selectElement set_trigger set_list_items].
  split; [|split; [|split]].
  - apply find_selectedEl_single.
    cbn [list_items set_selectElement set_trigger set_list_items].
    rewrite !li_update_length. split; [apply lookup_lt_Some in Hi; exact Hi|].
    intros j x. rewrite !li_update_lookup.
    destruct (list_items st !! j) as [y|] eqn:Hj; [|discriminate].
    cbn [fmap option_fmap option_map].
    rewrite (bool_decide_eq_true_2 (j ∈ seq 0 (length (list_items st))))
      by (apply elem_of_seq; apply lookup_lt_Some in Hj; lia).
    intros [= <-].
    rewrite (bool_decide_ext (j ∈ [i]) (j = i))
      by apply list_elem_of_singleton.
    destruct (bool_decide (j = i)); cbn [li_classes].
    + apply hasClass_select_target.
    + apply hasClass_deselect.
  - unfold jq_text. cbn [foldr]. rewrite Hi. apply append_empty_r.
  - cbn [jq_data_value]. rewrite Hi. reflexivity.
  - rewrite !li_update_length. reflexivity.
Qed.

(** X1.  On a widget that is not disabled, a pointer select of an item of
    the list leaves exactly that item carrying the selected class, however
    many items carried it before, and the trigger showing its label. *)
Theorem select_marks_only_the_target st i li :
  disabled st = false →
  list_items st !! i = Some li →
  find_selectedEl (final (select i st)) = [i] ∧
  selectedIndex (final (select i st)) = Z.of_nat i ∧
  trigger (final (select i st)) = li_text li.
Proof.
  intros Hd Hi. rewrite (select_final st i Hd).
  destruct (toggleCustomSelect_frame st) as (_ & Hli & _).
  rewrite <- Hli in Hi.
  destruct (changeSelectElement_selected i _ li Hi) as (Hsel & Ht & _).
  unfold selectedIndex. rewrite Hsel. auto.
Qed.

(** ** Moving the selection with the keyboard *)

(** The items after [moved_to [m]], when [r] is the item it deselects. *)
Lemma moved_to_selected st r m li :
  jq_eq (seq 0 (length (list_items st))) (selectedIndex st) = [r] →
  r ≠ m →
  (∀ j x, list_items st !! j = Some x → j ≠ r →
          hasClass selectedClass (li_classes x) = false) →
  list_items st !! m = Some li →
  find_selectedEl (moved_to [m] st) = [m] ∧
  (∃ li', list_items (moved_to [m] st) !! m = Some li' ∧
          li_value li' = li_value li ∧ li_text li' = li_text li) ∧
  trigger (moved_to [m] st) = li_text li ∧
  (plain_token (li_value li) = true →
   li_value li ∈ o_value <$> sel_options (selectElement st) →
   native_value (moved_to [m] st) = Some (li_value li)) ∧
  expansion_of (moved_to [m] st) = expansion_of st ∧
  disabled (moved_to [m] st) = disabled st.
Proof.
  intros Hr Hne Hoff Hm. unfold moved_to, find_li.
  cbn [list_items set_list_items set_trigger set_selectElement].
  rewrite li_update_length, Hr.
  set (l' := li_update (removeClass selectedClass) [r]
               (li_update (addClass selectedClass) [m] (list_items st))).
  assert (Hl' : ∀ j, l' !! j =
            (λ x, mkItem (if bool_decide (j = r)
                          then removeClass selectedClass
                                 (if bool_decide (j = m)
                                  then addClass selectedClass (li_classes x)
                                  else li_classes x)
                          else if bool_decide (j = m)
                               then addClass selectedClass (li_classes x)
                               else li_classes x)
                         (li_value x) (li_text x)) <$> list_items st !! j).
  { intros j. subst l'. rewrite !li_update_lookup.
    destruct (list_items st !! j) as [x|]; [|reflexivity].
    cbn [fmap option_fmap option_map].
    rewrite (bool_decide_ext (j ∈ [r]) (j = r))
      by apply list_elem_of_singleton.
    rewrite (bool_decide_ext (j ∈ [m]) (j = m))
      by apply list_elem_of_singleton.
    destruct (bool_decide (j = r)), (bool_decide (j = m)), x; reflexivity. }
  assert (Hsel : positions (λ x, hasClass selectedClass (li_classes x)) l' 0
                 = [m]).
  { apply (positions_single _ _ 0%nat m).
    - subst l'. rewrite !li_update_length. apply lookup_lt_Some in Hm. exact Hm.
    - intros j x. rewrite Hl'.
      destruct (list_items st !! j) as [y|] eqn:Hj; [|discriminate].
      cbn [fmap option_fmap option_map]. intros [= <-]. cbn [li_classes].
      case_bool_decide as Hjr; case_bool_decide as Hjm; subst.
      + contradiction.
      + apply hasClass_deselect.
      + apply hasClass_select_target.
      + apply (Hoff j y Hj Hjr). }
  assert (Hlm : l' !! m = Some (mkItem (addClass selectedClass (li_classes li))
                                  (li_value li) (li_text li))).
  { rewrite Hl', Hm. cbn [fmap option_fmap option_map].
    rewrite bool_decide_eq_false_2 by congruence.
    rewrite bool_decide_eq_true_2 by reflexivity. reflexivity. }
  assert (Htxt : jq_text [m]
            (set_list_items (li_update (addClass selectedClass) [m]) st)
          = li_text li).
  { rewrite jq_text_li_update. unfold jq_text. cbn [foldr]. rewrite Hm.
    apply append_empty_r. }
  unfold find_selectedEl, jq_find_optionEl, native_value, expansion_of.
  cbn [list_items trigger selectElement expanded wrapper disabled
       set_list_items set_trigger set_selectElement].
  fold l'. rewrite Hsel.
  split; [reflexivity|]. split; [eauto|]. split; [exact Htxt|].
  split; [|split; reflexivity].
  intros Hp Hin. cbn [jq_data_value list_items set_list_items set_trigger].
  fold l'. rewrite Hlm. cbn [li_value].
  rewrite (data_convert_plain _ Hp). apply commit_plain; assumption.
Qed.

Lemma single_selection st k :
  find_selectedEl st = [k] →
  selectedIndex st = Z.of_nat k ∧
  jq_eq (seq 0 (length (list_items st))) (selectedIndex st) = [k] ∧
  (∀ j x, list_items st !! j = Some x → j ≠ k →
          hasClass selectedClass (li_classes x) = false).
Proof.
  intros Hsel. pose proof (proj1 (find_selectedEl_single st k) Hsel) as [Hk H].
  assert (Hidx : selectedIndex st = Z.of_nat k)
    by (unfold selectedIndex; rewrite Hsel; reflexivity).
  split; [exact Hidx|]. split.
  - rewrite Hidx, jq_eq_seq_in by lia. rewrite Nat2Z.id. reflexivity.
  - intros j x Hj Hne. rewrite (H j x Hj). apply bool_decide_eq_false_2, Hne.
Qed.

Lemma nextSelection_of_key st k key t :
  find_selectedEl st = [k] →
  nextSelection_of (mkEvent keyup (key_code key) t) st =
    Some (match neighbour (key_direction key) k with
          | Some m => if bool_decide (m < length (list_items st))%nat
                      then [m] else []
          | None => []
          end).
Proof.
  intros Hsel. destruct (single_selection st k Hsel) as (_ & Heq & _).
  pose proof (proj1 (find_selectedEl_single st k) Hsel) as [Hk _].
  unfold nextSelection_of, find_li. rewrite Heq.
  destruct key; cbn [keyCode key_code key_direction Z.eqb Pos.eqb orb
                     neighbour jq_prev jq_next flat_map app].
  - destruct k as [|k']; [reflexivity|].
    rewrite bool_decide_eq_true_2 by lia. reflexivity.
  - destruct k as [|k']; [reflexivity|].
    rewrite bool_decide_eq_true_2 by lia. reflexivity.
  - rewrite app_nil_r. reflexivity.
  - rewrite app_nil_r. reflexivity.
Qed.

(** ** What no event changes *)

Lemma fixed_part_li_update f s st :
  fixed_part (set_list_items (li_update f s) st) = fixed_part st.
Proof.
  unfold fixed_part. cbn [list_items selectElement set_list_items].
  rewrite li_update_values, li_update_texts. reflexivity.
Qed.

Lemma fixed_part_commit v st :
  fixed_part (set_selectElement (commit v) st) = fixed_part st.
Proof.
  unfold fixed_part. cbn [list_items selectElement set_selectElement].
  destruct (commit_fixed v (selectElement st)) as (-> & -> & -> & ->).
  reflexivity.
Qed.

Lemma fixed_part_set_trigger t st : fixed_part (set_trigger t st) = fixed_part st.
Proof. reflexivity. Qed.

Lemma fixed_part_toggle st :
  fixed_part (final (toggleCustomSelect st)) = fixed_part st.
Proof.
  rewrite toggleCustomSelect_final.
  destruct (disabled st), (expanded st); reflexivity.
Qed.

Lemma fixed_part_changeSelectElement s st :
  fixed_part (final (changeSelectElement s st)) = fixed_part st.
Proof.
  rewrite changeSelectElement_final, fixed_part_commit, fixed_part_set_trigger.
  change (set_list_items _ st) with
    (set_list_items (li_update (addClass selectedClass) s)
       (set_list_items (li_update (removeClass selectedClass)
                          (seq 0 (length (list_items st)))) st)).
  rewrite !fixed_part_li_update. reflexivity.
Qed.

Lemma fixed_part_moved_to ns st : fixed_part (moved_to ns st) = fixed_part st.
Proof.
  unfold moved_to.
  rewrite fixed_part_commit, fixed_part_li_update, fixed_part_set_trigger,
    fixed_part_li_update.
  reflexivity.
Qed.

Lemma fixed_part_deliver st ev : fixed_part (deliver st ev) = fixed_part st.
Proof.
  destruct ev as [src e]. unfold deliver, bindEventHandler. cbn [fst snd].
  assert (Hlist : fixed_part (final (handleCustomListClick e st))
                  = fixed_part st).
  { rewrite handleCustomListClick_final.
    destruct (disabled st); [reflexivity|].
    destruct (target e); [|reflexivity].
    rewrite fixed_part_changeSelectElement. apply fixed_part_toggle. }
  assert (Hkey : fixed_part (final (handleKeyboardSelect e st))
                 = fixed_part st).
  { rewrite handleKeyboardSelect_final.
    destruct (disabled st); [reflexivity|].
    destruct (e_type e); try reflexivity.
    rewrite handleKeyboardInput_final.
    destruct (nextSelection_of e st) as [ns|]; [|reflexivity].
    case_bool_decide; [apply fixed_part_moved_to|reflexivity]. }
  destruct src, (e_type e); try assumption; try reflexivity.
  apply fixed_part_toggle.
Qed.

Lemma fixed_part_run evs st : fixed_part (run evs st) = fixed_part st.
Proof.
  revert st. induction evs as [|ev evs IH]; intros st; [reflexivity|].
  unfold run in *. cbn [foldl]. rewrite IH. apply fixed_part_deliver.
Qed.

(** X2.  No event changes what the items and the options carry: after any
    sequence of events the items of the list have the values and labels
    they had, in the same order, the options of the native control have the
    values and texts they had, and the native control has the [disabled]
    attribute and the classes it had. *)
Theorem events_keep_the_options st evs :
  li_value <$> list_items (run evs st) = li_value <$> list_items st ∧
  li_text <$> list_items (run evs st) = li_text <$> list_items st ∧
  o_value <$> sel_options (selectElement (run evs st)) =
    o_value <$> sel_options (selectElement st) ∧
  o_text <$> sel_options (selectElement (run evs st)) =
    o_text <$> sel_options (selectElement st) ∧
  sel_disabled (selectElement (run evs st)) = sel_disabled (selectElement st) ∧
  sel_classes (selectElement (run evs st)) = sel_classes (selectElement st).
Proof.
  pose proof (fixed_part_run evs st) as H. unfold fixed_part in H.
  injection H as H1 H2 H3 H4 H5 H6. auto 10.
Qed.

(** ** Arrow keys *)

Lemma neighbour_ne d k m : neighbour d k = Some m → k ≠ m.
Proof. destruct d, k; cbn; intros [=]; lia. Qed.

Lemma keyup_neighbour st key t k m li :
  disabled st = false →
  find_selectedEl st = [k] →
  neighbour (key_direction key) k = Some m →
  list_items st !! m = Some li →
  final (handleKeyboardSelect (mkEvent keyup (key_code key) t) st) =
    moved_to [m] st ∧
  find_selectedEl (moved_to [m] st) = [m] ∧
  (∃ li', list_items (moved_to [m] st) !! m = Some li' ∧
          li_value li' = li_value li ∧ li_text li' = li_text li) ∧
  trigger (moved_to [m] st) = li_text li ∧
  (plain_token (li_value li) = true →
   li_value li ∈ o_value <$> sel_options (selectElement st) →
   native_value (moved_to [m] st) = Some (li_value li)) ∧
  expansion_of (moved_to [m] st) = expansion_of st ∧
  disabled (moved_to [m] st) = disabled st.
Proof.
  intros Hd Hsel Hn Hm.
  destruct (single_selection st k Hsel) as (_ & Heq & Hoff).
  split; [|exact (moved_to_selected st k m li Heq (neighbour_ne _ _ _ Hn)
                    Hoff Hm)].
  rewrite handleKeyboardSelect_final, Hd. cbn [e_type].
  rewrite handleKeyboardInput_final, (nextSelection_of_key st k key t Hsel), Hn.
  pose proof (lookup_lt_Some _ _ _ Hm) as Hlt.
  rewrite (bool_decide_eq_true_2 (m < length (list_items st))%nat Hlt).
  reflexivity.
Qed.

(** X3.  On a widget that is not disabled and has exactly one item
    selected, an arrow key whose neighbour exists moves the selection to
    that neighbour: it alone is selected afterwards, the trigger shows its
    label, and the list is neither opened nor closed.  When the value of
    the neighbour is a plain token that is the value of an option, the
    native control reads it afterwards. *)
Theorem arrow_moves_to_the_neighbour st key k m li :
  disabled st = false →
  find_selectedEl st = [k] →
  neighbour (key_direction key) k = Some m →
  list_items st !! m = Some li →
  find_selectedEl (final (selectRelative key st)) = [m] ∧
  trigger (final (selectRelative key st)) = li_text li ∧
  expanded (final (selectRelative key st)) = expanded st ∧
  (plain_token (li_value li) = true →
   li_value li ∈ o_value <$> sel_options (selectElement st) →
   native_value (final (selectRelative key st)) = Some (li_value li)).
Proof.
  intros Hd Hsel Hn Hm. unfold selectRelative.
  destruct (keyup_neighbour _ key other_element k m li Hd Hsel Hn Hm)
    as (-> & Hs & _ & Ht & Hv & Hx & _).
  split; [exact Hs|]. split; [exact Ht|]. split; [exact (f_equal fst Hx)|].
  exact Hv.
Qed.

Lemma jq_eq_seq_last n : jq_eq (seq 0 (S n)) (-1) = [n].
Proof.
  rewrite jq_eq_seq. change (-1 <? 0) with true. cbn match.
  destruct (Z.leb_spec 0 (-1 + Z.of_nat (S n))); [|lia].
  destruct (Z.ltb_spec (-1 + Z.of_nat (S n)) (Z.of_nat (S n))); [|lia].
  cbn [andb]. f_equal. lia.
Qed.

Lemma no_selection st :
  find_selectedEl st = [] →
  selectedIndex st = -1 ∧
  ∀ j x, list_items st !! j = Some x →
         hasClass selectedClass (li_classes x) = false.
Proof.
  intros Hsel. split; [unfold selectedIndex; rewrite Hsel; reflexivity|].
  apply find_selectedEl_none, Hsel.
Qed.

Lemma nextSelection_of_key_none st key t :
  find_selectedEl st = [] →
  nextSelection_of (mkEvent keyup (key_code key) t) st =
    Some (match key_direction key, length (list_items st) with
          | Previous, S (S n) => [n]
          | _, _ => []
          end).
Proof.
  intros Hsel. destruct (no_selection st Hsel) as [Hidx _].
  unfold nextSelection_of, find_li. rewrite Hidx.
  destruct (length (list_items st)) as [|n] eqn:Hn.
  - rewrite jq_eq_seq. destruct key; reflexivity.
  - rewrite jq_eq_seq_last.
    destruct key; cbn [keyCode key_code key_direction Z.eqb Pos.eqb orb
                       jq_prev jq_next flat_map app].
    + destruct n; reflexivity.
    + destruct n; reflexivity.
    + rewrite Hn, bool_decide_eq_false_2 by lia. reflexivity.
    + rewrite Hn, bool_decide_eq_false_2 by lia. reflexivity.
Qed.

(** X4.  With no item selected the handler starts from [eq(-1)], the last
    item.  On a widget that is not disabled a down or right arrow then
    changes nothing, and an up or left arrow selects the item before the
    last one (in a list of at least two) and gives the trigger its label;
    when its value is a plain token that is the value of an option, the
    native control reads it afterwards. *)
Theorem arrow_without_selection st :
  disabled st = false →
  find_selectedEl st = [] →
  (∀ key, key_direction key = Next → final (selectRelative key st) = st) ∧
  (∀ key n li, key_direction key = Previous →
     length (list_items st) = S (S n) →
     list_items st !! n = Some li →
     find_selectedEl (final (selectRelative key st)) = [n] ∧
     trigger (final (selectRelative key st)) = li_text li ∧
     (plain_token (li_value li) = true →
      li_value li ∈ o_value <$> sel_options (selectElement st) →
      native_value (final (selectRelative key st)) = Some (li_value li))).
Proof.
  intros Hd Hsel.
  assert (Hfin : ∀ key, final (selectRelative key st) =
            match nextSelection_of (mkEvent keyup (key_code key) other_element)
                    st with
            | Some ns => if bool_decide (0 < length ns)%nat
                         then moved_to ns st else st
            | None => st
            end).
  { intros key. unfold selectRelative.
    rewrite handleKeyboardSelect_final, Hd. cbn [e_type].
    apply handleKeyboardInput_final. }
  split.
  - intros key Hk. rewrite Hfin, (nextSelection_of_key_none st key _ Hsel), Hk.
    destruct (length (list_items st)) as [|[|n]]; reflexivity.
  - intros key n li Hk Hlen Hn.
    rewrite Hfin, (nextSelection_of_key_none st key _ Hsel), Hk, Hlen.
    rewrite bool_decide_eq_true_2 by (cbn; lia).
    destruct (no_selection st Hsel) as [Hidx Hoff].
    assert (Heq : jq_eq (seq 0 (length (list_items st))) (selectedIndex st)
                  = [S n]).
    { rewrite Hidx, Hlen. apply jq_eq_seq_last. }
    destruct (moved_to_selected st (S n) n li Heq) as (Hs & _ & Ht & Hv & _);
      [lia|intros j x Hj _; exact (Hoff j x Hj)|exact Hn|].
    split; [exact Hs|]. split; [exact Ht|exact Hv].
Qed.

(** ** Agreement of the three views *)

Lemma same_value_text st st' i li :
  fixed_part st' = fixed_part st →
  list_items st !! i = Some li →
  ∃ li', list_items st' !! i = Some li' ∧
         li_value li' = li_value li ∧ li_text li' = li_text li.
Proof.
  intros Hf Hi. unfold fixed_part in Hf. injection Hf as Hv Ht _ _ _ _.
  apply (f_equal (λ l, l !! i)) in Hv, Ht.
  rewrite !list_lookup_fmap, Hi in Hv, Ht.
  destruct (list_items st' !! i) as [li'|]; [|discriminate Hv].
  cbn in Hv, Ht. injection Hv as Hv. injection Ht as Ht. eauto.
Qed.

Lemma same_option_values st st' :
  fixed_part st' = fixed_part st →
  o_value <$> sel_options (selectElement st') =
    o_value <$> sel_options (selectElement st).
Proof. intros Hf. unfold fixed_part in Hf. injection Hf as _ _ Hv _ _ _. exact Hv. Qed.

Lemma same_length st st' :
  fixed_part st' = fixed_part st →
  length (list_items st') = length (list_items st).
Proof.
  intros Hf. unfold fixed_part in Hf. injection Hf as Hv _ _ _ _ _.
  apply (f_equal length) in Hv. rewrite !length_fmap in Hv. exact Hv.
Qed.

Lemma word_char_html_char a : word_char a = true → html_char a = true.
Proof.
  destruct a as [[] [] [] [] [] [] [] []]; vm_compute; intros H;
    reflexivity || discriminate H.
Qed.

Lemma all_chars_impl (p q : ascii → bool) s :
  (∀ a, p a = true → q a = true) → all_chars p s = true → all_chars q s = true.
Proof.
  intros Hpq. induction s as [|a s IH]; [reflexivity|]. cbn [all_chars].
  rewrite !andb_true_iff. intros [Ha Hs]. auto.
Qed.

Lemma identifier_html_plain s : identifier s = true → html_plain s = true.
Proof.
  destruct s as [|a s]; [reflexivity|]. unfold identifier, html_plain.
  cbn [all_chars]. rewrite !andb_true_iff. intros [Ha Hs]. split.
  - apply word_char_html_char. unfold word_char. rewrite Ha. reflexivity.
  - exact (all_chars_impl _ _ s word_char_html_char Hs).
Qed.

Lemma item_of_plain o :
  plain_option o = true →
  li_value (item_of o) = o_value o ∧ li_text (item_of o) = o_text o.
Proof.
  unfold plain_option, plain_token. rewrite !andb_true_iff.
  intros [[Hi _] Ht]. unfold item_of. cbn [li_value li_text].
  rewrite (parse_li_plain _ _ (identifier_html_plain _ Hi) Ht). split; reflexivity.
Qed.

Lemma committable_fixed st st' :
  fixed_part st' = fixed_part st → committable st' = committable st.
Proof.
  intros Hf. unfold fixed_part in Hf. injection Hf as Hv _ Ho _ _ _.
  unfold committable. rewrite Hv, Ho. reflexivity.
Qed.

Lemma committable_lookup st i li :
  committable st = true → list_items st !! i = Some li →
  plain_token (li_value li) = true ∧
  li_value li ∈ o_value <$> sel_options (selectElement st).
Proof.
  intros Hc Hi. unfold committable in Hc. rewrite forallb_forall in Hc.
  specialize (Hc (li_value li)). rewrite andb_true_iff, bool_decide_eq_true in Hc.
  apply Hc, list_elem_of_In, list_elem_of_lookup. exists i.
  rewrite list_lookup_fmap, Hi. reflexivity.
Qed.

Lemma CustomSelect_committable element :
  forallb plain_option (sel_options element) = true →
  committable (CustomSelect element) = true.
Proof.
  intros Hp. rewrite CustomSelect_eq. unfold committable.
  cbn [list_items selectElement select_addClass sel_options].
  rewrite forallb_forall in Hp. apply forallb_forall. intros v Hv.
  apply list_elem_of_In in Hv. rewrite <- list_fmap_compose in Hv.
  apply list_elem_of_fmap in Hv as (o & -> & Ho). cbn [compose].
  pose proof (Hp o (proj1 (list_elem_of_In _ _) Ho)) as Hpo.
  destruct (item_of_plain o Hpo) as [-> _].
  unfold plain_option in Hpo. apply andb_true_iff in Hpo as [-> _].
  cbn [andb]. apply bool_decide_eq_true_2, list_elem_of_fmap. eauto.
Qed.

(** Under [committable] the commit never stops on the selector. *)
Lemma commit_runs_committable s st st' :
  committable st = true → fixed_part st' = fixed_part st →
  commit_runs (jq_data_value s st') (selectElement st') = true.
Proof.
  intros Hc Hf. rewrite <- (committable_fixed _ _ Hf) in Hc.
  assert (Hu : commit_runs js_undefined (selectElement st') = true).
  { unfold commit_runs. cbn [js_to_string].
    rewrite find_value_identifier by reflexivity. reflexivity. }
  unfold jq_data_value. destruct s as [|i s]; [exact Hu|].
  destruct (list_items st' !! i) as [li|] eqn:Hi; [|exact Hu].
  destruct (committable_lookup st' i li Hc Hi) as [Hp Hin].
  rewrite (data_convert_plain _ Hp). apply commit_plain; assumption.
Qed.

Lemma in_agreement_frame st st' :
  list_items st' = list_items st → trigger st' = trigger st →
  selectElement st' = selectElement st →
  in_agreement st → in_agreement st'.
Proof.
  intros Hl Ht Hs (k & li & H1 & H2 & H3 & H4). exists k, li.
  unfold find_selectedEl, native_value in *. rewrite Hl, Ht, Hs. auto.
Qed.

Lemma nextSelection_of_single e st k :
  find_selectedEl st = [k] →
  nextSelection_of e st = None ∨ nextSelection_of e st = Some [] ∨
  ∃ m, m ≠ k ∧ (m < length (list_items st))%nat ∧
       nextSelection_of e st = Some [m].
Proof.
  intros Hsel. destruct (single_selection st k Hsel) as (_ & Heq & _).
  unfold nextSelection_of, find_li. rewrite Heq.
  destruct (_ || _); [|destruct (_ || _)]; [| |auto].
  - destruct k as [|k']; cbn [jq_prev flat_map app]; [auto|].
    right. right. exists k'.
    pose proof (proj1 (find_selectedEl_single st _) Hsel) as [Hk _].
    split; [lia|]. split; [lia|reflexivity].
  - unfold jq_next. cbn [flat_map]. rewrite app_nil_r.
    case_bool_decide; [|auto].
    right. right. exists (S k). split; [lia|]. split; [lia|reflexivity].
Qed.

Lemma handleKeyboardInput_agreement e st :
  committable st = true → in_agreement st → in_agreement (final (handleKeyboardInput e st)).
Proof.
  intros Hs Hag. pose proof Hag as (k & li & Hsel & Hk & Ht & Hn).
  rewrite handleKeyboardInput_final.
  destruct (nextSelection_of_single e st k Hsel)
    as [-> | [-> | (m & Hne & Hm & ->)]]; [exact Hag|exact Hag|].
  rewrite bool_decide_eq_true_2 by (cbn; lia).
  destruct (lookup_lt_is_Some_2 _ _ Hm) as [lim Hlim].
  destruct (single_selection st k Hsel) as (_ & Heq & Hoff).
  destruct (moved_to_selected st k m lim Heq (not_eq_sym Hne) Hoff Hlim)
    as (H1 & (li' & H2 & Hv' & Ht') & H3 & H4 & _).
  exists m, li'. rewrite Hv', Ht'. split; [exact H1|]. split; [exact H2|].
  split; [exact H3|].
  destruct (committable_lookup st m lim Hs Hlim) as [Hp Hin].
  exact (H4 Hp Hin).
Qed.

Lemma changeSelectElement_agreement i st li :
  committable st = true → list_items st !! i = Some li →
  in_agreement (final (changeSelectElement [i] st)).
Proof.
  intros Hs Hi.
  destruct (changeSelectElement_selected i st li Hi) as (H1 & H2 & H3 & _).
  destruct (same_value_text st _ i li (fixed_part_changeSelectElement [i] st)
              Hi) as (li' & Hi' & Hv & Ht).
  exists i, li'. rewrite Hv, Ht. split; [exact H1|]. split; [exact Hi'|].
  split; [exact H2|].
  unfold native_value. rewrite changeSelectElement_final.
  cbn [selectElement set_selectElement set_trigger set_list_items].
  rewrite H3. destruct (committable_lookup st i li Hs Hi) as [Hp Hin].
  rewrite (data_convert_plain _ Hp). apply commit_plain; assumption.
Qed.

Lemma deliver_agreement st ev :
  committable st = true → event_in_range (length (list_items st)) ev = true →
  in_agreement st → in_agreement (deliver st ev).
Proof.
  intros Hs Hr Hag. destruct ev as [src e].
  unfold deliver, bindEventHandler, event_in_range in *. cbn [fst snd] in *.
  assert (Htog : in_agreement (final (toggleCustomSelect st))).
  { destruct (toggleCustomSelect_frame st) as (H1 & H2 & H3 & _).
    exact (in_agreement_frame st _ H2 H3 H1 Hag). }
  assert (Hlist : match target e with
                  | button i => bool_decide (i < length (list_items st))%nat
                  | other_element => true
                  end = true →
                  in_agreement (final (handleCustomListClick e st))).
  { intros Hin. rewrite handleCustomListClick_final.
    destruct (disabled st); [exact Hag|].
    destruct (target e) as [i|]; [|exact Hag].
    apply bool_decide_eq_true_1 in Hin.
    destruct (toggleCustomSelect_frame st) as (_ & H2 & _).
    destruct (lookup_lt_is_Some_2 _ _ Hin) as [li Hli]. rewrite <- H2 in Hli.
    apply (changeSelectElement_agreement i _ li); [|exact Hli].
    rewrite (committable_fixed _ _ (fixed_part_toggle st)). exact Hs. }
  assert (Hkey : in_agreement (final (handleKeyboardSelect e st))).
  { rewrite handleKeyboardSelect_final.
    destruct (disabled st); [exact Hag|].
    destruct (e_type e); try exact Hag;
      try (apply (in_agreement_frame st); [reflexivity..|exact Hag]).
    apply handleKeyboardInput_agreement; assumption. }
  destruct src, (e_type e); try assumption.
  apply Hlist. destruct (target e); exact Hr || reflexivity.
Qed.

Lemma item_of_selected o :
  hasClass selectedClass (li_classes (item_of o)) = o_selected o.
Proof.
  unfold item_of. cbn [li_classes]. destruct (o_selected o).
  - rewrite hasClass_addClass, bool_decide_eq_true_2; reflexivity.
  - apply bool_decide_eq_false_2, not_elem_of_empty.
Qed.

Lemma CustomSelect_agreement element k o :
  forallb plain_option (sel_options element) = true →
  positions o_selected (sel_options element) 0 = [k] →
  sel_options element !! k = Some o →
  sel_value element = Some (o_value o) →
  in_agreement (CustomSelect element).
Proof.
  intros Hp Hpos Hk Hv. exists k, (item_of o).
  assert (Hpo : plain_option o = true).
  { rewrite forallb_forall in Hp. apply Hp, list_elem_of_In.
    apply list_elem_of_lookup. eauto. }
  destruct (item_of_plain o Hpo) as [-> ->].
  destruct (positions_single_filter _ _ _ _ Hpos) as (x & Hx & Hf).
  rewrite Nat.sub_0_r, Hk in Hx. injection Hx as <-.
  rewrite CustomSelect_eq. unfold find_selectedEl, native_value, initial_label.
  cbn [list_items trigger selectElement sel_value select_addClass].
  rewrite positions_fmap, (positions_ext _ o_selected) by apply item_of_selected.
  rewrite list_lookup_fmap, Hk, Hf. auto.
Qed.

Lemma run_agreement evs st :
  committable st = true →
  forallb (event_in_range (length (list_items st))) evs = true →
  in_agreement st → in_agreement (run evs st).
Proof.
  revert st. induction evs as [|ev evs IH]; intros st Hs Hr Hag; [exact Hag|].
  cbn [forallb] in Hr. apply andb_true_iff in Hr as [Hev Hr].
  unfold run in *. cbn [foldl]. apply IH.
  - rewrite (committable_fixed _ _ (fixed_part_deliver st ev)). exact Hs.
  - rewrite (same_length st _ (fixed_part_deliver st ev)). exact Hr.
  - apply deliver_agreement; assumption.
Qed.

(** X5.  Built from a native control whose options all have a plain token
    for value and a text without HTML markup, with exactly one option
    marked selected whose value the control reads, a widget keeps its three
    views in agreement through every sequence of events whose clicks land
    on buttons of the list: exactly one item is selected, the trigger shows
    its label and the native control reads its value. *)
Theorem views_stay_in_agreement element evs k o :
  forallb plain_option (sel_options element) = true →
  positions o_selected (sel_options element) 0 = [k] →
  sel_options element !! k = Some o →
  sel_value element = Some (o_value o) →
  forallb (event_in_range (length (sel_options element))) evs = true →
  ∃ j li, find_selectedEl (widget element evs) = [j] ∧
          list_items (widget element evs) !! j = Some li ∧
          trigger (widget element evs) = li_text li ∧
          native_value (widget element evs) = Some (li_value li).
Proof.
  intros Hp Hpos Hk Hv Hr. unfold widget. apply run_agreement.
  - apply CustomSelect_committable, Hp.
  - rewrite CustomSelect_eq. cbn [list_items]. rewrite length_fmap. exact Hr.
  - exact (CustomSelect_agreement element k o Hp Hpos Hk Hv).
Qed.

Lemma neighbour_opposite d k m :
  neighbour d k = Some m → neighbour (opposite d) m = Some k.
Proof. destruct d, k; cbn; intros [= <-]; reflexivity. Qed.

(** X6.  On a widget that is not disabled and has exactly one item
    selected, an arrow key towards an existing neighbour followed by an
    arrow key of the opposite direction brings the selection back: the
    same item is selected and the trigger shows its label again.  When the
    value of that item is a plain token that is the value of an option, the
    native control reads it again. *)
Theorem arrow_there_and_back st key1 key2 k m li :
  disabled st = false →
  find_selectedEl st = [k] →
  list_items st !! k = Some li →
  neighbour (key_direction key1) k = Some m →
  (m < length (list_items st))%nat →
  key_direction key2 = opposite (key_direction key1) →
  find_selectedEl
    (final (selectRelative key2 (final (selectRelative key1 st)))) = [k] ∧
  trigger (final (selectRelative key2 (final (selectRelative key1 st))))
    = li_text li ∧
  (plain_token (li_value li) = true →
   li_value li ∈ o_value <$> sel_options (selectElement st) →
   native_value
     (final (selectRelative key2 (final (selectRelative key1 st))))
     = Some (li_value li)).
Proof.
  intros Hd Hsel Hk Hn Hm Hopp.
  destruct (lookup_lt_is_Some_2 _ _ Hm) as [lim Hlim].
  unfold selectRelative.
  destruct (keyup_neighbour st key1 other_element k m lim Hd Hsel Hn Hlim)
    as (-> & Hsel1 & _ & _ & _ & _ & Hd1).
  rewrite Hd in Hd1.
  pose proof (fixed_part_moved_to [m] st) as Hf.
  destruct (same_value_text st _ k li Hf Hk) as (li' & Hk' & Hv & Ht).
  apply neighbour_opposite in Hn. rewrite <- Hopp in Hn.
  destruct (keyup_neighbour _ key2 other_element m k li' Hd1 Hsel1 Hn Hk')
    as (-> & Hs & _ & Htr & Hnv & _).
  rewrite Hv, Ht in *. split; [exact Hs|]. split; [exact Htr|].
  intros Hp Hin. apply Hnv; [exact Hp|].
  rewrite (same_option_values st _ Hf). exact Hin.
Qed.

(** ** Toggling, disabling, mounting *)

Lemma addClass_removeClass_in c (cs : classes) :
  c ∈ cs → addClass c (removeClass c cs) = cs.
Proof.
  intros Hin. apply set_eq. intros x.
  rewrite elem_of_addClass, elem_of_removeClass.
  destruct (decide (x = c)) as [->|]; tauto.
Qed.

Lemma removeClass_addClass_notin c (cs : classes) :
  c ∉ cs → removeClass c (addClass c cs) = cs.
Proof.
  intros Hin. apply set_eq. intros x.
  rewrite elem_of_removeClass, elem_of_addClass.
  destruct (decide (x = c)) as [->|]; tauto.
Qed.

Lemma toggle_twice st :
  expansion_in_step st →
  final (toggleCustomSelect (final (toggleCustomSelect st))) = st.
Proof.
  intros Hinv. rewrite (toggleCustomSelect_final st).
  destruct (disabled st) eqn:Hd.
  - rewrite toggleCustomSelect_final, Hd. reflexivity.
  - unfold expansion_in_step in Hinv.
    destruct (expanded st) eqn:Hx; rewrite toggleCustomSelect_final;
      cbn [disabled expanded set_expanded set_wrapper]; rewrite Hd;
      unfold set_expanded, set_wrapper;
      cbn [selectElement disabled expanded trigger wrapper list_items mounted].
    + rewrite addClass_removeClass_in by (apply Hinv; reflexivity).
      destruct st; cbn in *; congruence.
    + rewrite removeClass_addClass_notin
        by (intros Hin; apply Hinv in Hin; discriminate Hin).
      destruct st; cbn in *; congruence.
Qed.

(** X7.  In every state a widget reaches, two clicks on the trigger in a
    row give back the state before them: open then close, or close then
    open, leaves the flag, the wrapper's classes and everything else as
    they were. *)
Theorem toggle_twice_restores element evs :
  final (toggleCustomSelect (final (toggleCustomSelect (widget element evs))))
    = widget element evs ∧
  run [(on_trigger, mkEvent click 0 other_element);
       (on_trigger, mkEvent click 0 other_element)] (widget element evs)
    = widget element evs.
Proof.
  assert (H : final (toggleCustomSelect
                       (final (toggleCustomSelect (widget element evs))))
              = widget element evs).
  { apply toggle_twice. unfold widget.
    apply run_in_step, CustomSelect_in_step. }
  split; [exact H|exact H].
Qed.

Lemma deliver_disabledClass st ev :
  disabledClass ∈ wrapper (deliver st ev) ↔ disabledClass ∈ wrapper st.
Proof.
  destruct ev as [src e]. unfold deliver, bindEventHandler. cbn [fst snd].
  assert (Htog : disabledClass ∈ wrapper (final (toggleCustomSelect st))
                 ↔ disabledClass ∈ wrapper st).
  { rewrite toggleCustomSelect_final.
    destruct (disabled st), (expanded st); try reflexivity;
      unfold set_expanded, set_wrapper; cbn [wrapper];
      rewrite ?elem_of_addClass, ?elem_of_removeClass; intuition discriminate. }
  assert (Hlist : disabledClass ∈ wrapper (final (handleCustomListClick e st))
                  ↔ disabledClass ∈ wrapper st).
  { rewrite handleCustomListClick_final.
    destruct (disabled st); [reflexivity|].
    destruct (target e) as [i|]; [|reflexivity].
    destruct (changeSelectElement_frame [i] (final (toggleCustomSelect st)))
      as (_ & _ & -> & _).
    exact Htog. }
  assert (Hkey : disabledClass ∈ wrapper (final (handleKeyboardSelect e st))
                 ↔ disabledClass ∈ wrapper st).
  { rewrite handleKeyboardSelect_final.
    destruct (disabled st); [reflexivity|].
    destruct (e_type e); try reflexivity; unfold set_wrapper; cbn [wrapper].
    - rewrite elem_of_addClass. intuition discriminate.
    - rewrite elem_of_removeClass. intuition discriminate.
    - destruct (handleKeyboardInput_frame e st) as (_ & _ & -> & _).
      reflexivity. }
  destruct src, (e_type e); try assumption; reflexivity.
Qed.

(** X8.  A disable event sets the [disabled] flag and nothing else: every
    event delivered afterwards is ignored, and the wrapper keeps the
    classes it had, so it is not given the disabled class. *)
Theorem disable_event_latches st kc t :
  disabled (final (handleKeyboardSelect (mkEvent disable kc t) st)) = true ∧
  final (handleKeyboardSelect (mkEvent disable kc t) st) =
    set_disabled true st ∧
  wrapper (final (handleKeyboardSelect (mkEvent disable kc t) st)) =
    wrapper st ∧
  (∀ evs, run evs (final (handleKeyboardSelect (mkEvent disable kc t) st)) =
          final (handleKeyboardSelect (mkEvent disable kc t) st)).
Proof.
  rewrite handleKeyboardSelect_final. cbn [e_type].
  destruct (disabled st) eqn:Hd.
  - split; [exact Hd|].
    split; [unfold set_disabled; destruct st; cbn in *; subst; reflexivity|].
    split; [reflexivity|]. intros evs. apply run_disabled, Hd.
  - split; [reflexivity|]. split; [reflexivity|]. split; [reflexivity|].
    intros evs. apply run_disabled. reflexivity.
Qed.

(** X9.  The wrapper carries the disabled class exactly when the native
    control had its [disabled] attribute at construction: no event adds or
    removes it, a later disable event included. *)
Theorem disabled_class_set_at_construction element evs :
  disabledClass ∈ wrapper (widget element evs) ↔ sel_disabled element = true.
Proof.
  transitivity (disabledClass ∈ wrapper (CustomSelect element)).
  - unfold widget. generalize (CustomSelect element).
    induction evs as [|ev evs IH]; intros st; [reflexivity|].
    unfold run in *. cbn [foldl]. rewrite IH. apply deliver_disabledClass.
  - rewrite CustomSelect_eq. cbn [wrapper].
    destruct (sel_disabled element);
      rewrite ?elem_of_addClass, elem_of_singleton; intuition discriminate.
Qed.

(** X10.  A widget built over a native control with the [disabled]
    attribute still renders one item per option, and never changes: after
    any sequence of events it is in the state construction left it in. *)
Theorem disabled_select_is_inert element evs :
  sel_disabled element = true →
  widget element evs = CustomSelect element ∧
  disabled (CustomSelect element) = true ∧
  expanded (CustomSelect element) = false ∧
  length (list_items (CustomSelect element)) = length (sel_options element).
Proof.
  intros Hd.
  assert (Hdis : disabled (CustomSelect element) = true)
    by (rewrite CustomSelect_eq; exact Hd).
  split; [apply run_disabled, Hdis|]. split; [exact Hdis|].
  rewrite CustomSelect_eq. cbn [expanded list_items].
  rewrite length_fmap. auto.
Qed.

Lemma deliver_mounted st ev : mounted (deliver st ev) = mounted st.
Proof.
  destruct ev as [src e]. unfold deliver, bindEventHandler. cbn [fst snd].
  assert (Htog : mounted (final (toggleCustomSelect st)) = mounted st).
  { rewrite toggleCustomSelect_final.
    destruct (disabled st), (expanded st); reflexivity. }
  assert (Hlist : mounted (final (handleCustomListClick e st)) = mounted st).
  { rewrite handleCustomListClick_final.
    destruct (disabled st); [reflexivity|].
    destruct (target e) as [i|]; [|reflexivity].
    destruct (changeSelectElement_frame [i] (final (toggleCustomSelect st)))
      as (_ & _ & _ & ->).
    exact Htog. }
  assert (Hkey : mounted (final (handleKeyboardSelect e st)) = mounted st).
  { rewrite handleKeyboardSelect_final.
    destruct (disabled st); [reflexivity|].
    destruct (e_type e); try reflexivity.
    apply handleKeyboardInput_frame. }
  destruct src, (e_type e); try assumption; reflexivity.
Qed.

(** X11.  The wrapper is inserted into the page from inside the loop over
    the options: a widget is mounted exactly when its native control has at
    least one option, and events do not change that.  Built over a control
    without options it has no items and is never mounted. *)
Theorem mounted_iff_options element evs :
  (mounted (widget element evs) = true ↔ sel_options element ≠ []) ∧
  (sel_options element = [] → list_items (widget element evs) = []).
Proof.
  split.
  - transitivity (mounted (CustomSelect element) = true).
    + unfold widget. generalize (CustomSelect element).
      induction evs as [|ev evs IH]; intros st; [reflexivity|].
      unfold run in *. cbn [foldl]. rewrite IH, deliver_mounted. reflexivity.
    + rewrite CustomSelect_eq. cbn [mounted].
      destruct (sel_options element); split; congruence.
  - intros Hnil.
    pose proof (same_length _ _ (fixed_part_run evs (CustomSelect element)))
      as Hlen.
    fold (widget element evs) in Hlen. rewrite CustomSelect_eq in Hlen.
    cbn [list_items] in Hlen. rewrite Hnil in Hlen.
    destruct (list_items (widget element evs)); [reflexivity|discriminate].
Qed.

(** X12.  A click inside the list that is not on a button, and a key-up
    of a key other than the four arrows, change nothing. *)
Theorem other_inputs_change_nothing st e :
  (target e = other_element → final (handleCustomListClick e st) = st) ∧
  (e_type e = keyup →
   keyCode e ≠ 37 → keyCode e ≠ 38 → keyCode e ≠ 39 → keyCode e ≠ 40 →
   final (handleKeyboardSelect e st) = st).
Proof.
  split.
  - intros Ht. rewrite handleCustomListClick_final, Ht.
    destruct (disabled st); reflexivity.
  - intros Hty H37 H38 H39 H40. rewrite handleKeyboardSelect_final, Hty.
    destruct (disabled st); [reflexivity|].
    rewrite handleKeyboardInput_final. unfold nextSelection_of.
    rewrite (proj2 (Z.eqb_neq _ _) H37), (proj2 (Z.eqb_neq _ _) H38),
      (proj2 (Z.eqb_neq _ _) H39), (proj2 (Z.eqb_neq _ _) H40).
    reflexivity.
Qed.

(** X13.  On a widget that is not disabled a focus event marks the wrapper
    as focused, and a blur event after it gives back the state before the
    focus when the wrapper was not focused then. *)
Theorem focus_then_blur st kc t kc' t' :
  disabled st = false →
  focusClass ∉ wrapper st →
  focused (final (handleKeyboardSelect (mkEvent focus kc t) st)) = true ∧
  final (handleKeyboardSelect (mkEvent blur kc' t')
           (final (handleKeyboardSelect (mkEvent focus kc t) st))) = st.
Proof.
  intros Hd Hf. rewrite (handleKeyboardSelect_final (mkEvent focus kc t) st), Hd.
  cbn [e_type]. split.
  - unfold focused, set_wrapper. cbn [wrapper].
    rewrite hasClass_addClass, bool_decide_eq_true_2; reflexivity.
  - rewrite handleKeyboardSelect_final.
    cbn [disabled set_wrapper e_type]. rewrite Hd.
    unfold set_wrapper.
    cbn [selectElement disabled expanded trigger wrapper list_items mounted].
    rewrite removeClass_addClass_notin by exact Hf.
    destruct st; reflexivity.
Qed.

(** ** The default action *)

(** X14.  A click on the trigger has its default action suppressed exactly
    when the widget is disabled.  A click inside the list and an event on
    the native control have it suppressed when the widget is disabled,
    when the click is not on a button, when the event is not a key-up, and
    on every path when every item carries a plain token that is the value
    of an option (the commit then runs to its end, so the call of
    [e.preventDefault()] after it is reached). *)
Theorem default_suppressed_except_on_trigger st e :
  result (toggleCustomSelect st) = disabled st ∧
  (disabled st = true →
   result (handleCustomListClick e st) = true ∧
   result (handleKeyboardSelect e st) = true) ∧
  (target e = other_element → result (handleCustomListClick e st) = true) ∧
  (e_type e ≠ keyup → result (handleKeyboardSelect e st) = true) ∧
  (committable st = true →
   result (handleCustomListClick e st) = true ∧
   result (handleKeyboardSelect e st) = true).
Proof.
  split; [apply toggleCustomSelect_result|].
  rewrite handleCustomListClick_result, handleKeyboardSelect_result.
  split; [intros ->; split; reflexivity|].
  split; [intros ->; destruct (disabled st); reflexivity|].
  split; [intros Hty; destruct (disabled st), (e_type e); congruence|].
  intros Hc. split.
  - destruct (disabled st); [reflexivity|].
    destruct (target e) as [i|]; [|reflexivity].
    rewrite changeSelectElement_result.
    exact (commit_runs_committable [i] st _ Hc (fixed_part_toggle st)).
  - destruct (disabled st); [reflexivity|].
    destruct (e_type e); try reflexivity.
    destruct (handleKeyboardInput_result e st) as [->|(s & st' & -> & Hf)];
      [reflexivity|].
    exact (commit_runs_committable s st st' Hc Hf).
Qed.

(** ** What construction shows as selected *)

(** C5.  Construction gives the selected class to the item of every option
    whose [selected] attribute reads [selected], and sets the trigger from
    those options alone.  Over a control with no option marked, which shows
    its first option, no item is selected and the trigger is empty; over a
    control with two options marked, which shows the last of them, both
    items are selected.  In neither case is exactly one item selected. *)
Theorem construction_keeps_the_marks :
  (native_value (CustomSelect fruit_unmarked) = Some "a"%string ∧
   find_selectedEl (CustomSelect fruit_unmarked) = [] ∧
   trigger (CustomSelect fruit_unmarked) = EmptyString) ∧
  (native_value (CustomSelect fruit_two_marked) = Some "c"%string ∧
   find_selectedEl (CustomSelect fruit_two_marked) = [0; 2]%nat ∧
   trigger (CustomSelect fruit_two_marked) = "Cherry"%string).
Proof. rewrite !CustomSelect_eq. vm_compute. repeat split; reflexivity. Qed.

(** ** Values the commit does not carry *)

Lemma find_none_accepted (opts : list OptionEl) :
  List.find (λ o, bool_decide (o_value o ∈ @nil string)) opts = None.
Proof.
  induction opts as [|o opts IH]; [reflexivity|]. cbn [List.find].
  rewrite bool_decide_eq_false_2 by apply not_elem_of_nil. exact IH.
Qed.

(** A boolean passes the selector and is the [val()] of no option. *)
Lemma commit_bool b sel :
  sel_value (commit (js_bool b) sel) = None ∧ commit_runs (js_bool b) sel = true.
Proof.
  unfold commit, commit_runs.
  rewrite find_value_identifier by (destruct b; reflexivity).
  split; [|reflexivity]. unfold val. cbn [sel_value val_accepts].
  rewrite find_none_accepted. reflexivity.
Qed.

Lemma select_native st i li :
  disabled st = false → list_items st !! i = Some li →
  selectElement (final (select i st)) =
    commit (data_convert (li_value li)) (selectElement st) ∧
  result (select i st) =
    commit_runs (data_convert (li_value li)) (selectElement st).
Proof.
  intros Hd Hi. unfold select.
  rewrite handleCustomListClick_final, handleCustomListClick_result, Hd.
  cbn [target]. rewrite changeSelectElement_final, changeSelectElement_result.
  destruct (toggleCustomSelect_frame st) as (Hs & Hl & _).
  cbn [selectElement set_selectElement set_trigger set_list_items].
  unfold jq_data_value. rewrite Hs, Hl, Hi. auto.
Qed.

(** C1.  The commit does not take every value to the native control.
    Over the control with the options true/Yes and false/No, a select of
    No reads the boolean [false] from [data-value], and [.val(false)]
    matches no option: the native control is left without a value, not
    with the value [false] of the option.  Over the control of the usage
    note of the source, whose options Foo and Bar have no [value]
    attribute, a select of Bar sets the native control to Bar, but the
    selector [[value=Bar]] finds no option: none gets the [selected]
    mark. *)
Theorem select_commit_diverges :
  (disabled (CustomSelect yes_no) = false ∧
   li_value <$> list_items (CustomSelect yes_no) = ["true"; "false"]%string ∧
   native_value (CustomSelect yes_no) = Some "true"%string ∧
   native_value (final (select 1 (CustomSelect yes_no))) = None) ∧
  (disabled (CustomSelect foo_bar) = false ∧
   li_value <$> list_items (CustomSelect foo_bar) = ["Foo"; "Bar"]%string ∧
   native_value (final (select 1 (CustomSelect foo_bar))) = Some "Bar"%string ∧
   o_selected <$> sel_options (selectElement (final (select 1
                                                (CustomSelect foo_bar))))
     = [false; false]).
Proof.
  assert (Hy : list_items (CustomSelect yes_no) =
               [mkItem (addClass selectedClass ∅) "true" "Yes";
                mkItem ∅ "false" "No"]).
  { rewrite CustomSelect_eq. cbn [list_items]. unfold yes_no, item_of.
    cbn [sel_options fmap list_fmap o_value o_text o_selected].
    rewrite !parse_li_plain by reflexivity. reflexivity. }
  assert (Hf : list_items (CustomSelect foo_bar) =
               [mkItem (addClass selectedClass ∅) "Foo" "Foo";
                mkItem ∅ "Bar" "Bar"]).
  { rewrite CustomSelect_eq. cbn [list_items]. unfold foo_bar, item_of.
    cbn [sel_options fmap list_fmap o_value o_text o_selected].
    rewrite !parse_li_plain by reflexivity. reflexivity. }
  assert (Hdy : disabled (CustomSelect yes_no) = false)
    by (rewrite CustomSelect_eq; reflexivity).
  assert (Hdf : disabled (CustomSelect foo_bar) = false)
    by (rewrite CustomSelect_eq; reflexivity).
  split.
  - split; [exact Hdy|]. split; [rewrite Hy; reflexivity|].
    split; [rewrite CustomSelect_eq; reflexivity|].
    unfold native_value.
    rewrite (proj1 (select_native _ 1 (mkItem ∅ "false" "No") Hdy
                      ltac:(rewrite Hy; reflexivity))).
    cbn [li_value]. change (data_convert "false") with (js_bool false).
    apply commit_bool.
  - split; [exact Hdf|]. split; [rewrite Hf; reflexivity|].
    unfold native_value.
    rewrite (proj1 (select_native _ 1 (mkItem ∅ "Bar" "Bar") Hdf
                      ltac:(rewrite Hf; reflexivity))).
    cbn [li_value]. rewrite data_convert_plain by reflexivity.
    unfold commit. rewrite find_value_identifier by reflexivity.
    rewrite CustomSelect_eq. cbn [selectElement]. vm_compute.
    split; reflexivity.
Qed.

(** X15.  When the selector built from the value of an item is rejected,
    a pointer select of that item on a widget that is not disabled stops
    inside the commit, before [selectElement.val(value)]: the default
    action of the click is not suppressed, no option of the native control
    carries the [selected] mark, and the list and the trigger show the
    item as selected. *)
Theorem rejected_selector_stops_the_commit st i li :
  disabled st = false →
  list_items st !! i = Some li →
  find_value (js_to_string (data_convert (li_value li)))
    (sel_options (clear_selected (selectElement st))) = None →
  result (select i st) = false ∧
  Forall (λ o, o_selected o = false)
         (sel_options (selectElement (final (select i st)))) ∧
  find_selectedEl (final (select i st)) = [i] ∧
  trigger (final (select i st)) = li_text li.
Proof.
  intros Hd Hi Hrej. destruct (select_native st i li Hd Hi) as [Hs Hr].
  rewrite Hs, Hr. unfold commit, commit_runs.
  rewrite Hrej. split; [reflexivity|]. split.
  - unfold clear_selected. cbn [sel_options]. apply Forall_fmap, Forall_true.
    intros o. reflexivity.
  - rewrite (select_final st i Hd).
    destruct (toggleCustomSelect_frame st) as (_ & Hli & _).
    rewrite <- Hli in Hi.
    destruct (changeSelectElement_selected i _ li Hi) as (Hsel & Ht & _).
    auto.
Qed.

End properties.

(** * The widget over three fruits *)

(** The statements from here on are about the control [fruit] and its
    relatives, with the library [plain_library].  Their values are
    identifiers and their texts are plain, so every library reads them the
    same way; the values of [decimals] are the exception, rejected by
    [plain_library] as selector engines reject them. *)

Lemma disabled_is_absorbing_witness :
  disabled (CustomSelect fruit_disabled) = true ∧
  final (select 0 (CustomSelect fruit_disabled)) = CustomSelect fruit_disabled ∧
  final (selectRelative key_down (CustomSelect fruit_disabled)) =
    CustomSelect fruit_disabled ∧
  final (toggleCustomSelect (CustomSelect fruit_disabled)) =
    CustomSelect fruit_disabled.
Proof.
  assert (Hd : disabled (CustomSelect fruit_disabled) = true)
    by (vm_compute; reflexivity).
  destruct (disabled_is_absorbing (CustomSelect fruit_disabled) Hd)
    as (Hs & Hr & Ht & _).
  exact (conj Hd (conj (Hs 0%nat) (conj (Hr key_down) Ht))).
Defined.

(** C9.  A click on the trigger of an enabled widget runs
    [toggleCustomSelect], which neither calls [e.preventDefault()] nor
    returns [false]: the default action of the click is not suppressed.
    At the same widget a click on an option button and an arrow key do
    have it suppressed. *)
Example trigger_click_keeps_default :
  disabled fruit_closed = false ∧
  result (bindEventHandler on_trigger (mkEvent click 0 other_element)
            fruit_closed) = false ∧
  result (bindEventHandler on_list (mkEvent click 0 (button 0))
            fruit_closed) = true ∧
  result (bindEventHandler on_wrapper (mkEvent keyup 40 other_element)
            fruit_closed) = true.
Proof. vm_compute. repeat split; reflexivity. Qed.

(** C2, as the claim states it, fails: a pointer-driven select on a closed
    widget opens it. *)
Lemma select_from_closed_opens :
  disabled fruit_closed = false ∧
  expanded fruit_closed = false ∧
  is_Some (list_items fruit_closed !! 0%nat) ∧
  expanded (final (select 0 fruit_closed)) = true.
Proof. vm_compute. repeat split; eauto. Qed.

Lemma select_toggles_selectRelative_keeps_witness :
  disabled fruit_open = false ∧
  expanded (final (select 0 fruit_open)) = negb (expanded fruit_open) ∧
  (expanded fruit_open = true →
   expanded (final (select 0 fruit_open)) = false) ∧
  (∀ k, expanded (final (selectRelative k fruit_open)) = expanded fruit_open).
Proof.
  assert (Hd : disabled fruit_open = false) by (vm_compute; reflexivity).
  exact (conj Hd (select_toggles_selectRelative_keeps fruit_open 0%nat Hd)).
Defined.

(** C4, as the claim states it, fails: an open widget that loses focus
    stays open. *)
Lemma blur_leaves_open :
  disabled fruit_open = false ∧
  expanded fruit_open = true ∧
  expanded (final (handleKeyboardSelect (mkEvent blur 0 other_element)
                     fruit_open)) = true.
Proof. vm_compute. repeat split; reflexivity. Qed.

Lemma blur_clears_focus_only_witness :
  disabled fruit_open = false ∧
  focused (final (handleKeyboardSelect (mkEvent blur 0 other_element)
                    fruit_open)) = false ∧
  expanded (final (handleKeyboardSelect (mkEvent blur 0 other_element)
                     fruit_open)) = expanded fruit_open.
Proof.
  assert (Hd : disabled fruit_open = false) by (vm_compute; reflexivity).
  destruct (blur_clears_focus_only fruit_open 0 other_element Hd)
    as (Hf & Hx & _).
  exact (conj Hd (conj Hf Hx)).
Defined.

Lemma selectRelative_stops_at_the_ends_witness :
  (selectedIndex fruit_first = 0 ∧
   final (selectRelative key_up fruit_first) = fruit_first) ∧
  (selectedIndex fruit_last = Z.of_nat (length (list_items fruit_last)) - 1 ∧
   final (selectRelative key_down fruit_last) = fruit_last).
Proof.
  assert (H0 : selectedIndex fruit_first = 0) by (vm_compute; reflexivity).
  assert (H2 : selectedIndex fruit_last =
               Z.of_nat (length (list_items fruit_last)) - 1)
    by (vm_compute; reflexivity).
  split.
  - split; [exact H0|].
    exact (proj1 (selectRelative_stops_at_the_ends fruit_first key_up)
             eq_refl H0).
  - split; [exact H2|].
    exact (proj2 (selectRelative_stops_at_the_ends fruit_last key_down)
             eq_refl H2).
Defined.

(** C8, as the claim states it, fails: a second select(i) toggles the
    expansion state once more, so on an open widget one select leaves it
    closed and two leave it open. *)
Lemma select_twice_differs :
  disabled fruit_open = false ∧
  expanded (final (select 0 fruit_open)) = false ∧
  expanded (final (select 0 (final (select 0 fruit_open)))) = true ∧
  final (select 0 (final (select 0 fruit_open))) ≠ final (select 0 fruit_open).
Proof.
  split; [vm_compute; reflexivity|].
  split; [vm_compute; reflexivity|].
  split; [vm_compute; reflexivity|].
  intros H. apply (f_equal expanded) in H. vm_compute in H. discriminate H.
Qed.

Lemma select_twice_same_selection_witness :
  disabled fruit_open = false ∧
  selectElement (final (select 0 (final (select 0 fruit_open)))) =
    selectElement (final (select 0 fruit_open)) ∧
  expanded (final (select 0 (final (select 0 fruit_open)))) =
    expanded fruit_open.
Proof.
  assert (Hd : disabled fruit_open = false) by (vm_compute; reflexivity).
  destruct (select_twice_same_selection fruit_open 0%nat Hd)
    as (_ & _ & _ & Hs & Hx).
  exact (conj Hd (conj Hs Hx)).
Defined.

(** C3, as the claim states it, fails: during a select of Apple on the
    open widget showing Banana, after the fifth write the list is already
    closed and the widget already shows Apple as selected and as trigger
    label, while the native control still reads "b". *)
Lemma select_renders_before_commit :
  ∃ s, writes (select 0 fruit_open) !! 4%nat = Some s ∧
       expanded s = false ∧
       find_selectedEl s = [0%nat] ∧
       trigger s = "Apple"%string ∧
       native_value s = Some "b"%string ∧
       native_value (final (select 0 fruit_open)) = Some "a"%string.
Proof. eexists. vm_compute. repeat split; reflexivity. Qed.

Lemma select_writes_in_order_witness :
  disabled fruit_open = false ∧
  ∃ es rs ns,
    writes (select 0 fruit_open) = es ++ rs ++ ns ∧
    length es = 2%nat ∧ length rs = 3%nat ∧ length ns = 3%nat ∧
    Forall (λ s, expansion_of s = expansion_of (final (select 0 fruit_open)) ∧
                 rendering_of s = rendering_of (final (select 0 fruit_open)))
           ns.
Proof.
  assert (Hd : disabled fruit_open = false) by (vm_compute; reflexivity).
  assert (Hres : result (select 0 fruit_open) = true)
    by (vm_compute; reflexivity).
  destruct (select_writes_in_order fruit_open 0%nat Hd)
    as [(es & rs & ns & Hw & He & Hr & Hn & _ & _ & Hns) _].
  rewrite Hres in Hn. split; [exact Hd|].
  exists es, rs, ns. exact (conj Hw (conj He (conj Hr (conj Hn Hns)))).
Defined.

(** Banana is selected; the down arrow moves to Cherry and leaves the list
    closed; a second down arrow changes nothing. *)
Example down_arrow_twice :
  selectedIndex (final (selectRelative key_down fruit_closed)) = 2 ∧
  native_value (final (selectRelative key_down fruit_closed)) =
    Some "c"%string ∧
  trigger (final (selectRelative key_down fruit_closed)) = "Cherry"%string ∧
  expanded (final (selectRelative key_down fruit_closed)) =
    expanded fruit_closed ∧
  final (selectRelative key_down (final (selectRelative key_down fruit_closed)))
    = final (selectRelative key_down fruit_closed).
Proof. vm_compute. repeat split; reflexivity. Qed.

(** A click on Apple in the open list selects it and closes the list. *)
Example click_apple_when_open :
  selectedIndex (final (select 0 fruit_open)) = 0 ∧
  native_value (final (select 0 fruit_open)) = Some "a"%string ∧
  trigger (final (select 0 fruit_open)) = "Apple"%string ∧
  expanded (final (select 0 fruit_open)) = false.
Proof. vm_compute. repeat split; reflexivity. Qed.

Lemma select_marks_only_the_target_witness :
  disabled (CustomSelect fruit_two_marked) = false ∧
  find_selectedEl (CustomSelect fruit_two_marked) = [0; 2]%nat ∧
  find_selectedEl (final (select 1 (CustomSelect fruit_two_marked))) =
    [1%nat] ∧
  trigger (final (select 1 (CustomSelect fruit_two_marked))) =
    "Banana"%string.
Proof.
  assert (Hd : disabled (CustomSelect fruit_two_marked) = false)
    by (vm_compute; reflexivity).
  assert (Hi : list_items (CustomSelect fruit_two_marked) !! 1%nat =
               Some (mkItem ∅ "b" "Banana")) by (vm_compute; reflexivity).
  destruct (select_marks_only_the_target _ 1%nat _ Hd Hi) as (Hs & _ & Ht).
  split; [exact Hd|]. split; [vm_compute; reflexivity|].
  exact (conj Hs Ht).
Defined.

Lemma arrow_moves_to_the_neighbour_witness :
  disabled fruit_closed = false ∧
  find_selectedEl fruit_closed = [1%nat] ∧
  find_selectedEl (final (selectRelative key_left fruit_closed)) = [0%nat] ∧
  trigger (final (selectRelative key_left fruit_closed)) = "Apple"%string ∧
  native_value (final (selectRelative key_left fruit_closed)) =
    Some "a"%string.
Proof.
  assert (Hd : disabled fruit_closed = false) by (vm_compute; reflexivity).
  assert (Hs : find_selectedEl fruit_closed = [1%nat])
    by (vm_compute; reflexivity).
  assert (Hm : list_items fruit_closed !! 0%nat =
               Some (mkItem ∅ "a" "Apple")) by (vm_compute; reflexivity).
  assert (Hin : "a"%string ∈ o_value <$> sel_options (selectElement fruit_closed))
    by (apply (bool_decide_eq_true_1 _); vm_compute; reflexivity).
  destruct (arrow_moves_to_the_neighbour fruit_closed key_left 1 0 _ Hd Hs
              eq_refl Hm) as (H1 & H2 & _ & H3).
  exact (conj Hd (conj Hs (conj H1 (conj H2 (H3 eq_refl Hin))))).
Defined.

Lemma arrow_without_selection_witness :
  disabled (widget fruit_unmarked []) = false ∧
  find_selectedEl (widget fruit_unmarked []) = [] ∧
  final (selectRelative key_down (widget fruit_unmarked [])) =
    widget fruit_unmarked [] ∧
  find_selectedEl (final (selectRelative key_up (widget fruit_unmarked []))) =
    [1%nat] ∧
  trigger (final (selectRelative key_up (widget fruit_unmarked []))) =
    "Banana"%string ∧
  native_value (final (selectRelative key_up (widget fruit_unmarked []))) =
    Some "b"%string.
Proof.
  assert (Hd : disabled (widget fruit_unmarked []) = false)
    by (vm_compute; reflexivity).
  assert (Hs : find_selectedEl (widget fruit_unmarked []) = [])
    by (vm_compute; reflexivity).
  assert (Hl : length (list_items (widget fruit_unmarked [])) = 3%nat)
    by (vm_compute; reflexivity).
  assert (Hm : list_items (widget fruit_unmarked []) !! 1%nat =
               Some (mkItem ∅ "b" "Banana")) by (vm_compute; reflexivity).
  assert (Hin : "b"%string ∈
                o_value <$> sel_options (selectElement (widget fruit_unmarked [])))
    by (apply (bool_decide_eq_true_1 _); vm_compute; reflexivity).
  destruct (arrow_without_selection (widget fruit_unmarked []) Hd Hs)
    as [Hdown Hup].
  destruct (Hup key_up 1%nat _ eq_refl Hl Hm) as (H1 & H2 & H3).
  exact (conj Hd (conj Hs (conj (Hdown key_down eq_refl)
           (conj H1 (conj H2 (H3 eq_refl Hin)))))).
Defined.

Lemma views_stay_in_agreement_witness :
  ∃ j li,
    find_selectedEl
      (widget fruit [(on_trigger, mkEvent click 0 other_element);
                     (on_list, mkEvent click 0 (button 2));
                     (on_wrapper, mkEvent keyup 38 other_element)]) = [j] ∧
    list_items
      (widget fruit [(on_trigger, mkEvent click 0 other_element);
                     (on_list, mkEvent click 0 (button 2));
                     (on_wrapper, mkEvent keyup 38 other_element)]) !! j
      = Some li ∧
    trigger
      (widget fruit [(on_trigger, mkEvent click 0 other_element);
                     (on_list, mkEvent click 0 (button 2));
                     (on_wrapper, mkEvent keyup 38 other_element)])
      = li_text li ∧
    native_value
      (widget fruit [(on_trigger, mkEvent click 0 other_element);
                     (on_list, mkEvent click 0 (button 2));
                     (on_wrapper, mkEvent keyup 38 other_element)])
      = Some (li_value li).
Proof.
  apply (views_stay_in_agreement fruit _ 1%nat
           (mkOption "b" "Banana" true true));
    vm_compute; reflexivity.
Defined.

Lemma arrow_there_and_back_witness :
  disabled fruit_closed = false ∧
  find_selectedEl fruit_closed = [1%nat] ∧
  find_selectedEl
    (final (selectRelative key_up
              (final (selectRelative key_down fruit_closed)))) = [1%nat] ∧
  trigger
    (final (selectRelative key_up
              (final (selectRelative key_down fruit_closed))))
    = "Banana"%string ∧
  native_value
    (final (selectRelative key_up
              (final (selectRelative key_down fruit_closed))))
    = Some "b"%string.
Proof.
  assert (Hd : disabled fruit_closed = false) by (vm_compute; reflexivity).
  assert (Hs : find_selectedEl fruit_closed = [1%nat])
    by (vm_compute; reflexivity).
  assert (Hk : list_items fruit_closed !! 1%nat =
               Some (mkItem (addClass selectedClass ∅) "b" "Banana"))
    by (vm_compute; reflexivity).
  assert (Hm : (2 < length (list_items fruit_closed))%nat)
    by (vm_compute; lia).
  assert (Hin : "b"%string ∈ o_value <$> sel_options (selectElement fruit_closed))
    by (apply (bool_decide_eq_true_1 _); vm_compute; reflexivity).
  destruct (arrow_there_and_back fruit_closed key_down key_up 1 2 _ Hd Hs Hk
              eq_refl Hm eq_refl) as (H1 & H2 & H3).
  exact (conj Hd (conj Hs (conj H1 (conj H2 (H3 eq_refl Hin))))).
Defined.

Lemma disabled_select_is_inert_witness :
  sel_disabled fruit_disabled = true ∧
  widget fruit_disabled [(on_trigger, mkEvent click 0 other_element);
                         (on_list, mkEvent click 0 (button 0))] =
    CustomSelect fruit_disabled.
Proof.
  split; [reflexivity|].
  exact (proj1 (disabled_select_is_inert fruit_disabled _ eq_refl)).
Defined.

Lemma mounted_iff_options_witness :
  mounted (widget no_fruit [(on_trigger, mkEvent click 0 other_element)])
    = false ∧
  list_items (widget no_fruit [(on_trigger, mkEvent click 0 other_element)])
    = [] ∧
  mounted (widget fruit [(on_trigger, mkEvent click 0 other_element)]) = true.
Proof.
  destruct (mounted_iff_options no_fruit
              [(on_trigger, mkEvent click 0 other_element)]) as [Hm Hl].
  destruct (mounted_iff_options fruit
              [(on_trigger, mkEvent click 0 other_element)]) as [Hf _].
  split; [|split].
  - apply not_true_is_false. intros H. apply Hm in H. apply H. reflexivity.
  - apply Hl. reflexivity.
  - apply Hf. discriminate.
Defined.

Lemma other_inputs_change_nothing_witness :
  final (handleCustomListClick (mkEvent keyup 13 other_element) fruit_open) =
    fruit_open ∧
  final (handleKeyboardSelect (mkEvent keyup 13 other_element) fruit_open) =
    fruit_open.
Proof.
  destruct (other_inputs_change_nothing fruit_open
              (mkEvent keyup 13 other_element)) as [Hc Hk].
  split; [exact (Hc eq_refl)|].
  apply Hk; [reflexivity|discriminate..].
Defined.

Lemma focus_then_blur_witness :
  disabled fruit_open = false ∧
  final (handleKeyboardSelect (mkEvent blur 0 other_element)
           (final (handleKeyboardSelect (mkEvent focus 0 other_element)
                     fruit_open))) = fruit_open.
Proof.
  assert (Hd : disabled fruit_open = false) by (vm_compute; reflexivity).
  assert (Hf : focusClass ∉ wrapper fruit_open).
  { intros Hin. apply (bool_decide_eq_true_2 _) in Hin.
    vm_compute in Hin. discriminate Hin. }
  exact (conj Hd (proj2 (focus_then_blur fruit_open 0 other_element 0
                           other_element Hd Hf))).
Defined.

Lemma default_suppressed_except_on_trigger_witness :
  committable fruit_open = true ∧
  result (handleCustomListClick (mkEvent click 0 (button 2)) fruit_open)
    = true ∧
  result (handleKeyboardSelect (mkEvent keyup 38 other_element) fruit_open)
    = true ∧
  result (handleKeyboardSelect (mkEvent focus 0 other_element) fruit_open)
    = true ∧
  result (toggleCustomSelect fruit_open) = false.
Proof.
  assert (Hc : committable fruit_open = true) by (vm_compute; reflexivity).
  destruct (default_suppressed_except_on_trigger fruit_open
              (mkEvent click 0 (button 2))) as (Ht & _ & _ & _ & Hl).
  destruct (default_suppressed_except_on_trigger fruit_open
              (mkEvent keyup 38 other_element)) as (_ & _ & _ & _ & Hk).
  destruct (default_suppressed_except_on_trigger fruit_open
              (mkEvent focus 0 other_element)) as (_ & _ & _ & Hf & _).
  split; [exact Hc|]. split; [exact (proj1 (Hl Hc))|].
  split; [exact (proj2 (Hk Hc))|]. split; [apply Hf; discriminate|].
  exact Ht.
Defined.

Lemma rejected_selector_stops_the_commit_witness :
  disabled (CustomSelect decimals) = false ∧
  result (select 1 (CustomSelect decimals)) = false ∧
  find_selectedEl (final (select 1 (CustomSelect decimals))) = [1%nat] ∧
  trigger (final (select 1 (CustomSelect decimals))) = "One and a half"%string.
Proof.
  assert (Hd : disabled (CustomSelect decimals) = false)
    by (vm_compute; reflexivity).
  assert (Hi : list_items (CustomSelect decimals) !! 1%nat =
               Some (mkItem ∅ "1.5" "One and a half"))
    by (vm_compute; reflexivity).
  assert (Hr : find_value
                 (js_to_string
                    (data_convert
                       (li_value (mkItem ∅ "1.5" "One and a half"))))
                 (sel_options
                    (clear_selected (selectElement (CustomSelect decimals))))
               = None) by (vm_compute; reflexivity).
  destruct (rejected_selector_stops_the_commit (CustomSelect decimals) 1 _
              Hd Hi Hr) as (H1 & _ & H3 & H4).
  exact (conj Hd (conj H1 (conj H3 H4))).
Defined.

